(** * MleziCare: the login gate and the dashboard of [src/index.tsx]

    A shallow embedding of the state and the event handlers of the page:
    the login form ([LoginScreen]), the session controller ([App]) and
    the dashboard ([Dashboard]) with its chat request assembly, its mood
    logger and its journal prompt.

    Conventions of the embedding.
    - A JavaScript string is the list of its UTF-16 code units.
    - React state is a record; a handler runs against the values its
      closure captured at render time (the snapshot) and returns the list
      of state updates it queues, which are applied in order to the
      current state.  [setMessages(prev => ...)] is a functional update,
      [setInput('')] a constant one.
    - The asynchronous remote call splits [handleSendMessage] in two: the
      part run when the event fires, up to the [await], and the
      continuation run when the call settles. *)

From Stdlib Require Import String Ascii.
From Stdlib Require Import List Bool Arith NArith ZArith Lia.
Import ListNotations.

Set Implicit Arguments.

(* ================================================================== *)
(** * JavaScript strings *)
(* ================================================================== *)

Module JS.

(** A UTF-16 code unit. *)
Definition char := N.

Definition jsstring := list char.

(** A source literal (ASCII only) as a JavaScript string. *)
Fixpoint lit (s : string) : jsstring :=
  match s with
  | EmptyString => []
  | String a rest => N_of_ascii a :: lit rest
  end.

Definition eqb (s t : jsstring) : bool :=
  if list_eq_dec N.eq_dec s t then true else false.

(** ToBoolean on a string: only the empty string is falsy. *)
Definition truthy (s : jsstring) : bool :=
  match s with
  | [] => false
  | _ :: _ => true
  end.

(** WhiteSpace and LineTerminator code points of ECMAScript: what
    [String.prototype.trim] strips and what the class [\s] accepts. *)
Definition isWhiteSpace (c : char) : bool :=
  ((9 <=? c) && (c <=? 13) ||
   (c =? 32) || (c =? 160) || (c =? 5760) ||
   ((8192 <=? c) && (c <=? 8202)) ||
   (c =? 8232) || (c =? 8233) || (c =? 8239) || (c =? 8287) ||
   (c =? 12288) || (c =? 65279))%N.

Fixpoint trimStart (s : jsstring) : jsstring :=
  match s with
  | [] => []
  | c :: rest => if isWhiteSpace c then trimStart rest else s
  end.

Definition trimEnd (s : jsstring) : jsstring :=
  rev (trimStart (rev s)).

Definition trim (s : jsstring) : jsstring :=
  trimEnd (trimStart s).

(** [arr.slice(-k)]: the last [k] elements, the whole array when it has
    fewer. *)
Definition sliceLast (A : Type) (k : nat) (arr : list A) : list A :=
  skipn (length arr - k) arr.

(** [arr[arr.length - 1]], [undefined] on the empty array. *)
Fixpoint lastElem (A : Type) (arr : list A) : option A :=
  match arr with
  | [] => None
  | [x] => Some x
  | _ :: rest => lastElem rest
  end.

End JS.

Abbreviation jsstring := JS.jsstring.

(* ================================================================== *)
(** * Regular expressions, as far as the login form uses them *)
(* ================================================================== *)

Module RegExp.

(** An atom consumes one code unit. *)
Inductive Atom : Type :=
  | Chr (c : JS.char)       (* a literal character, also an escaped one *)
  | NonSpace.               (* \S *)

Inductive Quant : Type :=
  | Once
  | Plus.                   (* + *)

(** A pattern is a sequence of quantified atoms. *)
Definition Pattern := list (Atom * Quant).

Definition accepts (a : Atom) (c : JS.char) : bool :=
  match a with
  | Chr d => N.eqb c d
  | NonSpace => negb (JS.isWhiteSpace c)
  end.

(** Backtracking match of [p] at the start of [s].  [+] is greedy: the
    longer repetition is tried first, the rest of the pattern after it. *)
Fixpoint matchHere (p : Pattern) (s : jsstring) : bool :=
  match p with
  | [] => true
  | (a, Once) :: p' =>
      match s with
      | [] => false
      | c :: s' => accepts a c && matchHere p' s'
      end
  | (a, Plus) :: p' =>
      (fix repeat (s : jsstring) : bool :=
         match s with
         | [] => false
         | c :: s' => accepts a c && (repeat s' || matchHere p' s')
         end) s
  end.

(** [re.test(s)] for a pattern without flags: a match starting at some
    index of [s]. *)
Fixpoint test (p : Pattern) (s : jsstring) : bool :=
  matchHere p s ||
  match s with
  | [] => false
  | _ :: s' => test p s'
  end.

(** The words a pattern denotes. *)
Inductive Rep (a : Atom) : jsstring -> Prop :=
  | Rep_one c : accepts a c = true -> Rep a [c]
  | Rep_more c w : accepts a c = true -> Rep a w -> Rep a (c :: w).

Inductive Denotes : Pattern -> jsstring -> Prop :=
  | Den_nil : Denotes [] []
  | Den_once a p c w :
      accepts a c = true -> Denotes p w -> Denotes ((a, Once) :: p) (c :: w)
  | Den_plus a p u w :
      Rep a u -> Denotes p w -> Denotes ((a, Plus) :: p) (u ++ w).

End RegExp.

(* ================================================================== *)
(** * The login form *)
(* ================================================================== *)

Module LoginScreen.

(** State of the [LoginScreen] component. *)
Record State : Type := mkState {
  email : jsstring;
  password : jsstring;
  error : jsstring
}.

Definition initial : State := mkState [] [] [].

Definition setEmail (v : jsstring) (f : State) : State :=
  mkState v (password f) (error f).
Definition setPassword (v : jsstring) (f : State) : State :=
  mkState (email f) v (error f).
Definition setError (v : jsstring) (f : State) : State :=
  mkState (email f) (password f) v.

(** The pattern [/\S+@\S+\.\S+/]. *)
Definition EMAIL_PATTERN : RegExp.Pattern :=
  [ (RegExp.NonSpace, RegExp.Plus);
    (RegExp.Chr 64%N, RegExp.Once);       (* @ *)
    (RegExp.NonSpace, RegExp.Plus);
    (RegExp.Chr 46%N, RegExp.Once);       (* \. *)
    (RegExp.NonSpace, RegExp.Plus) ].

Definition MSG_BOTH : jsstring :=
  JS.lit "Please enter both email and password.".
Definition MSG_INVALID : jsstring :=
  JS.lit "Please enter a valid email address.".

(** [handleSubmit]: the form state after the handler, and the argument of
    [onLogin] when the handler reaches that call. *)
Definition handleSubmit (f : State) : State * option jsstring :=
  if negb (JS.truthy (email f)) || negb (JS.truthy (password f)) then
    (setError MSG_BOTH f, None)
  else if negb (RegExp.test EMAIL_PATTERN (email f)) then
    (setError MSG_INVALID f, None)
  else
    (setError [] f, Some (email f)).

End LoginScreen.

(* ================================================================== *)
(** * The dashboard *)
(* ================================================================== *)

Module Dashboard.

(** ** Data *)

Inductive Sender : Type := user | model.

Definition Sender_eqb (a b : Sender) : bool :=
  match a, b with
  | user, user => true
  | model, model => true
  | _, _ => false
  end.

(** [interface Message]; [isSilent] is optional. *)
Record Message : Type := mkMessage {
  sender : Sender;
  text : jsstring;
  isSilent : option bool
}.

(** ToBoolean of [msg.isSilent]: absent and [false] are falsy. *)
Definition silent (msg : Message) : bool :=
  match isSilent msg with
  | Some true => true
  | _ => false
  end.

Definition INITIAL_MESSAGES : list Message :=
  [ mkMessage model
      (JS.lit "Hello, I'm Mlezi, your personal wellness companion. How are you feeling today? Feel free to share what's on your mind.")
      None ].

Definition JOURNAL_PROMPTS : list jsstring :=
  [ JS.lit "What is one thing that brought you a moment of peace today?";
    JS.lit "Describe a challenge you faced recently and how you navigated it.";
    JS.lit "What are you grateful for right now, big or small?";
    JS.lit "If you could give your past self some advice, what would it be?";
    JS.lit "What's a small step you can take this week to care for yourself?";
    JS.lit "Write about a person who has supported you and what they mean to you." ].

(** The keys of [MOODS]. *)
Inductive Mood : Type := happy | neutral | sad | anxious.

Definition moodKey (m : Mood) : jsstring :=
  match m with
  | happy => JS.lit "happy"
  | neutral => JS.lit "neutral"
  | sad => JS.lit "sad"
  | anxious => JS.lit "anxious"
  end.

(** An entry of the mood history; [date] is the time value of
    [new Date()], in milliseconds. *)
Record MoodEntry : Type := mkMoodEntry {
  mood : Mood;
  date : Z
}.

Inductive Tool : Type := breathing | grounding | affirmations | crisis.

(** The client held by [aiRef]. *)
Inductive GoogleGenAI : Type := Client.

(** ** The request format of the remote service *)

Module Gen.

Record Part : Type := mkPart { text : jsstring }.

Record Content : Type := mkContent {
  role : Sender;
  parts : list Part
}.

End Gen.

(** ** Component state *)

Record State : Type := mkState {
  messages : list Message;
  input : jsstring;
  isLoading : bool;
  error : jsstring;
  isToolModalOpen : bool;
  activeTool : option Tool;
  moodHistory : list MoodEntry;
  journalPrompt : jsstring;
  isDropdownOpen : bool;
  aiRef : option GoogleGenAI
}.

(** A queued state update. *)
Definition Update := State -> State.

Definition setMessages (f : list Message -> list Message) : Update :=
  fun s => mkState (f (messages s)) (input s) (isLoading s) (error s)
             (isToolModalOpen s) (activeTool s) (moodHistory s)
             (journalPrompt s) (isDropdownOpen s) (aiRef s).

Definition setInput (f : jsstring -> jsstring) : Update :=
  fun s => mkState (messages s) (f (input s)) (isLoading s) (error s)
             (isToolModalOpen s) (activeTool s) (moodHistory s)
             (journalPrompt s) (isDropdownOpen s) (aiRef s).

Definition setIsLoading (b : bool) : Update :=
  fun s => mkState (messages s) (input s) b (error s)
             (isToolModalOpen s) (activeTool s) (moodHistory s)
             (journalPrompt s) (isDropdownOpen s) (aiRef s).

Definition setError (e : jsstring) : Update :=
  fun s => mkState (messages s) (input s) (isLoading s) e
             (isToolModalOpen s) (activeTool s) (moodHistory s)
             (journalPrompt s) (isDropdownOpen s) (aiRef s).

Definition setIsToolModalOpen (b : bool) : Update :=
  fun s => mkState (messages s) (input s) (isLoading s) (error s)
             b (activeTool s) (moodHistory s)
             (journalPrompt s) (isDropdownOpen s) (aiRef s).

Definition setActiveTool (t : option Tool) : Update :=
  fun s => mkState (messages s) (input s) (isLoading s) (error s)
             (isToolModalOpen s) t (moodHistory s)
             (journalPrompt s) (isDropdownOpen s) (aiRef s).

Definition setMoodHistory (f : list MoodEntry -> list MoodEntry) : Update :=
  fun s => mkState (messages s) (input s) (isLoading s) (error s)
             (isToolModalOpen s) (activeTool s) (f (moodHistory s))
             (journalPrompt s) (isDropdownOpen s) (aiRef s).

Definition setJournalPrompt (p : jsstring) : Update :=
  fun s => mkState (messages s) (input s) (isLoading s) (error s)
             (isToolModalOpen s) (activeTool s) (moodHistory s)
             p (isDropdownOpen s) (aiRef s).

Definition setIsDropdownOpen (b : bool) : Update :=
  fun s => mkState (messages s) (input s) (isLoading s) (error s)
             (isToolModalOpen s) (activeTool s) (moodHistory s)
             (journalPrompt s) b (aiRef s).

(** Applying the queued updates in order. *)
Definition applyAll (us : list Update) (s : State) : State :=
  fold_left (fun acc u => u acc) us s.

(** ** Request assembly, lines 216-242 of [handleSendMessage] *)

(** [messagesWithUser.slice(-20)]. *)
Definition history (messagesWithUser : list Message) : list Message :=
  JS.sliceLast 20 messagesWithUser.

(** The callback of [.map]: a fresh object with a one-element [parts]. *)
Definition toContent (msg : Message) : Gen.Content :=
  Gen.mkContent (sender msg) [Gen.mkPart (text msg)].

(** [history.filter(msg => !msg.isSilent).map(...)]. *)
Definition contents (hist : list Message) : list Gen.Content :=
  map toContent (filter (fun msg => negb (silent msg)) hist).

(** The callback of [contents.reduce].  It mutates the last element of
    the accumulator in place; that object is shared only with the array
    [contents], which is not read again, so the accumulator is modelled
    as a value whose last element is replaced.  [None] is the TypeError
    of reading [.text] of a missing [parts[0]]. *)
Definition mergeStep (acc : list Gen.Content) (msg : Gen.Content)
  : option (list Gen.Content) :=
  match JS.lastElem acc with
  | Some lastMsg =>
      if Sender_eqb (Gen.role lastMsg) (Gen.role msg) then
        match Gen.parts lastMsg, Gen.parts msg with
        | p :: ps, q :: _ =>
            Some (removelast acc ++
                  [Gen.mkContent (Gen.role lastMsg)
                     (Gen.mkPart (Gen.text p ++ [10%N] ++ Gen.text q) :: ps)])
        | _, _ => None
        end
      else Some (acc ++ [msg])
  | None => Some (acc ++ [msg])
  end.

(** [arr.reduce(f, init)] with a callback that may throw. *)
Fixpoint reduce (A B : Type) (f : B -> A -> option B) (arr : list A) (acc : B)
  : option B :=
  match arr with
  | [] => Some acc
  | x :: rest =>
      match f acc x with
      | Some acc' => reduce f rest acc'
      | None => None
      end
  end.

(** [contents.reduce(..., [])]. *)
Definition mergeContents (cs : list Gen.Content) : option (list Gen.Content) :=
  reduce mergeStep cs [].

(** The leading-turn fixup:
    [if (merged.length > 0 && merged[0].role === 'model') merged.shift()]. *)
Definition dropLeadingModel (merged : list Gen.Content) : list Gen.Content :=
  match merged with
  | [] => []
  | first :: rest =>
      match Gen.role first with
      | model => rest
      | user => merged
      end
  end.

(** Windowing, filtering, merging and fixup together: the value of
    [mergedContents] at line 244, [None] when the merge threw. *)
Definition assemble (messagesWithUser : list Message)
  : option (list Gen.Content) :=
  match mergeContents (contents (history messagesWithUser)) with
  | Some merged => Some (dropLeadingModel merged)
  | None => None
  end.

(** ** [handleSendMessage] *)

Definition ERROR_TEXT : jsstring :=
  JS.lit "I'm having a little trouble connecting right now. Please try again in a moment.".

Definition errorMessage : Message := mkMessage model ERROR_TEXT None.

(** The argument of [generateContent]: its [contents]; the model name and
    the system instruction are constants. *)
Definition Request := list Gen.Content.

(** How the [try] block leaves the synchronous part of the handler. *)
Inductive TryResult : Type :=
  | Thrown                        (* an exception, to the [catch] block *)
  | Returned                      (* the [return] of the emptiness guard *)
  | Awaiting (request : Request). (* [generateContent] called, awaited *)

(** The [try] block up to the [await], lines 214-255, as a function of the
    client and of [messagesWithUser]. *)
Definition requestPhase (ai : option GoogleGenAI)
    (messagesWithUser : list Message) : TryResult :=
  match ai with
  | None => Thrown
  | Some _ =>
      match assemble messagesWithUser with
      | None => Thrown
      | Some [] => Returned
      | Some mergedContents => Awaiting mergedContents
      end
  end.

(** The [catch] block followed by [finally]. *)
Definition catchFinally : list Update :=
  [ setMessages (fun prev => prev ++ [errorMessage]);
    setIsLoading false ].

(** What follows the synchronous part of the [try] block: the updates
    queued before the handler suspends or ends, and the pending call. *)
Definition afterTry (r : TryResult) : list Update * option Request :=
  match r with
  | Thrown => (catchFinally, None)
  | Returned => ([setIsLoading false; setIsLoading false], None)
  | Awaiting request => ([], Some request)
  end.

(** The outcome of the awaited call: the [text] of the response, or an
    exception of the call or of reading the response. *)
Inductive Settled : Type :=
  | Resolved (responseText : jsstring)
  | Rejected.

(** The continuation of the handler after the [await]. *)
Definition onSettled (r : Settled) : list Update :=
  match r with
  | Resolved responseText =>
      [ setMessages (fun prev => prev ++ [mkMessage model responseText None]);
        setIsLoading false ]
  | Rejected => catchFinally
  end.

(** [handleSendMessage(messageText = input)], run against the snapshot
    [snap] of its closure; [None] is the call without argument. *)
Definition handleSendMessage (snap : State) (arg : option jsstring)
  : list Update * option Request :=
  let messageText := match arg with Some t => t | None => input snap end in
  if negb (JS.truthy (JS.trim messageText)) || isLoading snap then ([], None)
  else
    let userMessage := mkMessage user messageText None in
    let queued :=
      [setMessages (fun prev => prev ++ [userMessage])] ++
      (if JS.eqb messageText (input snap) then [setInput (fun _ => [])] else []) ++
      [setIsLoading true; setError []] in
    let (rest, call) :=
      afterTry (requestPhase (aiRef snap) (messages snap ++ [userMessage])) in
    (queued ++ rest, call).

(** ** The other handlers *)

Definition handleNewChat : list Update :=
  [ setMessages (fun _ => INITIAL_MESSAGES);
    setInput (fun _ => []);
    setIsLoading false;
    setError [] ].

Definition moodPrompt (m : Mood) : jsstring :=
  JS.lit "I've just logged my mood as " ++ moodKey m ++
  JS.lit ". Can you give me a brief, supportive thought for the day based on that?".

(** [handleMoodSelection(mood)]; [now] is the value of [new Date()]. *)
Definition handleMoodSelection (snap : State) (m : Mood) (now : Z)
  : list Update * option Request :=
  let newEntry := mkMoodEntry m now in
  let moodMessage := JS.lit "I'm feeling " ++ moodKey m ++ JS.lit "." in
  let (sendUpdates, call) := handleSendMessage snap (Some (moodPrompt m)) in
  ([ setMoodHistory (fun prev => JS.sliceLast 7 (prev ++ [newEntry]));
     setMessages (fun prev => prev ++ [mkMessage user moodMessage (Some true)]) ]
   ++ sendUpdates, call).

(** [handleNewPrompt]; [randomIndex] is the drawn index, below the length
    of [JOURNAL_PROMPTS]. *)
Definition handleNewPrompt (randomIndex : nat) : list Update :=
  [ setJournalPrompt (nth randomIndex JOURNAL_PROMPTS []) ].

Definition handleWriteInJournal (snap : State) : list Update :=
  [ setInput (fun prev =>
      prev ++ (if JS.truthy prev then [10%N; 10%N] else []) ++
      JS.lit "Regarding the prompt " ++ [34%N] ++ journalPrompt snap ++
      [34%N] ++ JS.lit ": ") ].

Definition openToolModal (toolId : Tool) : list Update :=
  [ setActiveTool (Some toolId); setIsToolModalOpen true ].

Definition closeToolModal : list Update :=
  [ setIsToolModalOpen false ].

(** ** A mounted dashboard and its events *)

(** The component state together with the remote calls issued so far and
    the number of them that have settled. *)
Record Instance : Type := mkInstance {
  st : State;
  issued : list Request;
  settled : nat
}.

Definition INIT_ERROR : jsstring :=
  JS.lit "Failed to initialize the AI model. Please check the API key.".

(** The state after the first render and its effects: [clientOk] tells
    whether [new GoogleGenAI] returned, [randomIndex] is the index drawn
    by the first [handleNewPrompt]. *)
Definition mount (clientOk : bool) (randomIndex : nat) : Instance :=
  let s0 := mkState INITIAL_MESSAGES [] false [] false None [] [] false None in
  let s1 :=
    if clientOk then
      mkState (messages s0) (input s0) (isLoading s0) (error s0)
        (isToolModalOpen s0) (activeTool s0) (moodHistory s0)
        (journalPrompt s0) (isDropdownOpen s0) (Some Client)
    else setError INIT_ERROR s0 in
  mkInstance (applyAll (handleNewPrompt randomIndex) s1) [] 0.

Inductive Event : Type :=
  | Send                                   (* form submit or Enter *)
  | SelectMood (m : Mood) (now : Z)
  | NewChat
  | ChangeInput (value : jsstring)
  | NewPrompt (randomIndex : nat)
  | WriteInJournal
  | OpenTool (toolId : Tool)
  | CloseTool
  | ToggleDropdown
  | ClickOutside
  | Settle (r : Settled).                  (* a pending call settles *)

Definition commit (w : Instance) (h : list Update * option Request) : Instance :=
  mkInstance (applyAll (fst h) (st w))
    (match snd h with
     | Some request => issued w ++ [request]
     | None => issued w
     end)
    (settled w).

(** One event, handled against the current state as the closure snapshot.
    [Settle] is enabled only while a call is pending. *)
Definition step (w : Instance) (e : Event) : option Instance :=
  match e with
  | Send => Some (commit w (handleSendMessage (st w) None))
  | SelectMood m now => Some (commit w (handleMoodSelection (st w) m now))
  | NewChat => Some (commit w (handleNewChat, None))
  | ChangeInput value => Some (commit w ([setInput (fun _ => value)], None))
  | NewPrompt randomIndex => Some (commit w (handleNewPrompt randomIndex, None))
  | WriteInJournal => Some (commit w (handleWriteInJournal (st w), None))
  | OpenTool toolId => Some (commit w (openToolModal toolId, None))
  | CloseTool => Some (commit w (closeToolModal, None))
  | ToggleDropdown =>
      Some (commit w ([setIsDropdownOpen (negb (isDropdownOpen (st w)))], None))
  | ClickOutside => Some (commit w ([setIsDropdownOpen false], None))
  | Settle r =>
      if settled w <? List.length (issued w) then
        Some (mkInstance (applyAll (onSettled r) (st w)) (issued w) (S (settled w)))
      else None
  end.

Fixpoint run (w : Instance) (es : list Event) : option Instance :=
  match es with
  | [] => Some w
  | e :: rest =>
      match step w e with
      | Some w' => run w' rest
      | None => None
      end
  end.

(** The mood entries a sequence of events records, in order. *)
Fixpoint selections (es : list Event) : list MoodEntry :=
  match es with
  | [] => []
  | SelectMood m now :: rest => mkMoodEntry m now :: selections rest
  | _ :: rest => selections rest
  end.

End Dashboard.

(* ================================================================== *)
(** * The session controller *)
(* ================================================================== *)

Module App.

(** State of the [App] component. *)
Record State : Type := mkState {
  isAuthenticated : bool;
  userEmail : jsstring
}.

Definition initial : State := mkState false [].

Definition handleLogin (email : jsstring) (a : State) : State :=
  mkState true email.

Definition handleLogout (a : State) : State :=
  mkState false [].

(** The session of the specification: what [App] renders. *)
Inductive Session : Type :=
  | LoggedOut
  | LoggedIn (email : jsstring).

Definition session (a : State) : Session :=
  if isAuthenticated a then LoggedIn (userEmail a) else LoggedOut.

(** Submitting the login form, with [onLogin = handleLogin]. *)
Definition submit (a : State) (f : LoginScreen.State) : State * LoginScreen.State :=
  match LoginScreen.handleSubmit f with
  | (f', Some email) => (handleLogin email a, f')
  | (f', None) => (a, f')
  end.

End App.

(* ================================================================== *)
(** * What the dashboard renders *)
(* ================================================================== *)

Module Render.

Import Dashboard.

(** [disabled={!input.trim() || isLoading}] of the send button. *)
Definition sendDisabled (s : State) : bool :=
  negb (JS.truthy (JS.trim (input s))) || isLoading s.

(** [text.replace(/\n/g, '<br />')]: every line feed becomes the tag. *)
Fixpoint replaceNewlines (t : jsstring) : jsstring :=
  match t with
  | [] => []
  | c :: rest =>
      if N.eqb c 10 then JS.lit "<br />" ++ replaceNewlines rest
      else c :: replaceNewlines rest
  end.

(** A message bubble of the chat window: its [key], the sender in its
    class name and the markup given to [dangerouslySetInnerHTML]. *)
Record Bubble : Type := mkBubble {
  key : nat;
  className : Sender;
  html : jsstring
}.

(** [messages.map((msg, index) => !msg.isSilent && (...))], from index
    [index] on; [None] is the [false] React renders as nothing. *)
Fixpoint renderFrom (index : nat) (msgs : list Message) : list (option Bubble) :=
  match msgs with
  | [] => []
  | msg :: rest =>
      (if negb (silent msg)
       then Some (mkBubble index (sender msg) (replaceNewlines (text msg)))
       else None) :: renderFrom (S index) rest
  end.

Definition renderMessages (msgs : list Message) : list (option Bubble) :=
  renderFrom 0 msgs.

(** [moodHistory.length > 0]: whether the mood widget is shown. *)
Definition showMoodWidget (s : State) : bool :=
  match moodHistory s with
  | [] => false
  | _ :: _ => true
  end.



End Render.

(* ================================================================== *)
(** * The page: [App] with the component it renders *)
(* ================================================================== *)

Module Page.

(** [!isAuthenticated ? <LoginScreen/> : <Dashboard/>]: one of the two
    components is mounted, with its own state. *)
Inductive View : Type :=
  | LoginView (form : LoginScreen.State)
  | DashboardView (d : Dashboard.Instance).

Record State : Type := mkState {
  app : App.State;
  view : View
}.

(** The page after load: logged out, an empty login form. *)
Definition initial : State :=
  mkState App.initial (LoginView LoginScreen.initial).

Inductive Event : Type :=
  | ChangeEmail (value : jsstring)
  | ChangePassword (value : jsstring)
  | Submit (clientOk : bool) (randomIndex : nat)
      (* with what the mount of the dashboard will meet *)
  | Logout
  | Dash (e : Dashboard.Event).

(** One event.  A component that is not mounted receives none; the
    logout button exists only while the user menu is open.  When
    [isAuthenticated] flips, the other component mounts afresh. *)
Definition step (p : State) (e : Event) : option State :=
  match e, view p with
  | ChangeEmail value, LoginView f =>
      Some (mkState (app p) (LoginView (LoginScreen.setEmail value f)))
  | ChangePassword value, LoginView f =>
      Some (mkState (app p) (LoginView (LoginScreen.setPassword value f)))
  | Submit clientOk randomIndex, LoginView f =>
      let (a', f') := App.submit (app p) f in
      Some (mkState a'
              (if App.isAuthenticated a'
               then DashboardView (Dashboard.mount clientOk randomIndex)
               else LoginView f'))
  | Logout, DashboardView d =>
      if Dashboard.isDropdownOpen (Dashboard.st d)
      then Some (mkState (App.handleLogout (app p))
                   (LoginView LoginScreen.initial))
      else None
  | Dash e', DashboardView d =>
      match Dashboard.step d e' with
      | Some d' => Some (mkState (app p) (DashboardView d'))
      | None => None
      end
  | _, _ => None
  end.

Fixpoint run (p : State) (es : list Event) : option State :=
  match es with
  | [] => Some p
  | e :: rest =>
      match step p e with
      | Some p' => run p' rest
      | None => None
      end
  end.

End Page.

(* ================================================================== *)
(** * Vocabulary of the properties *)
(* ================================================================== *)

(** The calls issued and not yet settled. *)
Definition pending (w : Dashboard.Instance) : nat :=
  List.length (Dashboard.issued w) - Dashboard.settled w.


(** Every draw of a journal prompt in the sequence is an index into
    [JOURNAL_PROMPTS], as [Math.floor(Math.random() * length)] is. *)
Definition drawsInRange (es : list Dashboard.Event) : Prop :=
  Forall (fun e =>
            match e with
            | Dashboard.NewPrompt randomIndex =>
                randomIndex < List.length Dashboard.JOURNAL_PROMPTS
            | _ => True
            end) es.


(** A non-empty word without whitespace: what [\S+] matches. *)
Definition nonSpaceWord (u : jsstring) : Prop :=
  u <> [] /\ Forall (fun c => JS.isWhiteSpace c = false) u.

(** An email the login form accepts: somewhere in it, a non-space word,
    [@], a non-space word, a dot, a non-space word. *)
Definition validEmail (e : jsstring) : Prop :=
  exists pre a b c post,
    e = pre ++ a ++ [64%N] ++ b ++ [46%N] ++ c ++ post /\
    nonSpaceWord a /\ nonSpaceWord b /\ nonSpaceWord c.

(** What holds of the page whatever happened: the login form is shown
    with the session state of a fresh page; the dashboard is shown to an
    authenticated user whose email the login form accepted, and its log
    starts with the seed greeting. *)
Definition pageOk (p : Page.State) : Prop :=
  match Page.view p with
  | Page.LoginView _ =>
      App.isAuthenticated (Page.app p) = false /\
      App.userEmail (Page.app p) = []
  | Page.DashboardView d =>
      App.isAuthenticated (Page.app p) = true /\
      validEmail (App.userEmail (Page.app p)) /\
      exists tail,
        Dashboard.messages (Dashboard.st d) =
        Dashboard.INITIAL_MESSAGES ++ tail
  end.

(** Empty or whitespace only. *)
Definition blank (s : jsstring) : bool := forallb JS.isWhiteSpace s.

(** An update that leaves the mood history alone and at most appends to
    the message log. *)
Definition appendsToLog (u : Dashboard.Update) : Prop :=
  forall s,
    (exists added,
       Dashboard.messages (u s) = Dashboard.messages s ++ added) /\
    Dashboard.moodHistory (u s) = Dashboard.moodHistory s.

Module Turns.

Import Dashboard.

(** A turn as [.map] builds it: exactly one part. *)
Definition onePart (c : Gen.Content) : bool :=
  match Gen.parts c with
  | [_] => true
  | _ => false
  end.

(** The text of [parts[0]]. *)
Definition firstText (c : Gen.Content) : jsstring :=
  match Gen.parts c with
  | p :: _ => Gen.text p
  | [] => []
  end.

(** The turn [{role, parts: [{text}]}]. *)
Definition turn (r : Sender) (t : jsstring) : Gen.Content :=
  Gen.mkContent r [Gen.mkPart t].

(** No two neighbours with the same role. *)
Fixpoint alternating (cs : list Gen.Content) : bool :=
  match cs with
  | a :: (b :: _) as rest =>
      negb (Sender_eqb (Gen.role a) (Gen.role b)) && alternating rest
  | _ => true
  end.

(** The texts joined with a newline between neighbours. *)
Fixpoint joinLines (ts : list jsstring) : jsstring :=
  match ts with
  | [] => []
  | [t] => t
  | t :: rest => t ++ [10%N] ++ joinLines rest
  end.

(** The maximal runs of neighbouring turns with one role, in order. *)
Fixpoint groupRuns (cs : list Gen.Content) : list (list Gen.Content) :=
  match cs with
  | [] => []
  | c :: rest =>
      match groupRuns rest with
      | (d :: g) :: gs =>
          if Sender_eqb (Gen.role c) (Gen.role d)
          then (c :: d :: g) :: gs
          else [c] :: (d :: g) :: gs
      | _ => [[c]]
      end
  end.

(** The single turn a run folds into: the role of the run, the texts of
    its members joined by newlines. *)
Definition joinGroup (g : list Gen.Content) : Gen.Content :=
  Gen.mkContent
    (match g with c :: _ => Gen.role c | [] => user end)
    [Gen.mkPart (joinLines (map firstText g))].

(** The last turn of the accumulator with one more text folded in. *)
Definition appendText (lastMsg : Gen.Content) (t : jsstring) : Gen.Content :=
  Gen.mkContent (Gen.role lastMsg)
    [Gen.mkPart (firstText lastMsg ++ [10%N] ++ t)].

(** The runs that follow, folded into an accumulator ending in
    [lastMsg]: the first run joins [lastMsg] when the roles agree. *)
Definition absorb (lastMsg : Gen.Content) (gs : list (list Gen.Content))
  : list Gen.Content :=
  match gs with
  | [] => [lastMsg]
  | g :: gs' =>
      if Sender_eqb (Gen.role lastMsg) (Gen.role (joinGroup g))
      then appendText lastMsg (joinLines (map firstText g)) :: map joinGroup gs'
      else lastMsg :: map joinGroup gs
  end.

(** Two logs that differ at most in what their silent entries say. *)
Definition agreeOnVisible (m m' : Message) : Prop :=
  silent m = silent m' /\
  (silent m = false -> sender m = sender m' /\ text m = text m').

End Turns.

Unset Implicit Arguments.

(* ================================================================== *)
(** * The matcher decides the words of a pattern *)
(* ================================================================== *)

Section RegExpFacts.

Import RegExp.

Lemma matchHere_plus_cons a p c s :
  matchHere ((a, Plus) :: p) (c :: s) =
  accepts a c && (matchHere ((a, Plus) :: p) s || matchHere p s).
Proof. reflexivity. Qed.

Lemma matchHere_plus_nil a p : matchHere ((a, Plus) :: p) [] = false.
Proof. reflexivity. Qed.

Lemma matchHere_sound p : forall s,
  matchHere p s = true -> exists w rest, s = w ++ rest /\ Denotes p w.
Proof.
  induction p as [| [a q] p IH]; intros s H.
  - exists [], s. split; [reflexivity | constructor].
  - destruct q.
    + destruct s as [| c s]; simpl in H; [discriminate |].
      apply andb_true_iff in H as [Hc Hm].
      destruct (IH _ Hm) as (w & rest & -> & Hw).
      exists (c :: w), rest. split; [reflexivity | now constructor].
    + induction s as [| c s IHs]; [discriminate |].
      rewrite matchHere_plus_cons in H.
      apply andb_true_iff in H as [Hc Hm].
      apply orb_true_iff in Hm as [Hm | Hm].
      * destruct (IHs Hm) as (w & rest & -> & Hw).
        inversion Hw as [| | a' p' u v Hu Hv]; subst.
        exists ((c :: u) ++ v), rest. split.
        -- reflexivity.
        -- constructor; [now apply Rep_more | assumption].
      * destruct (IH _ Hm) as (w & rest & -> & Hw).
        exists ([c] ++ w), rest. split; [reflexivity |].
        constructor; [now apply Rep_one | assumption].
Qed.

Lemma matchHere_complete p : forall w rest,
  Denotes p w -> matchHere p (w ++ rest) = true.
Proof.
  intros w rest H. induction H as [| a p c w Hc Hw IH | a p u w Hu Hw IH].
  - reflexivity.
  - simpl. now rewrite Hc, IH.
  - induction Hu as [c Hc | c u Hc Hu IHu].
    + simpl app. rewrite matchHere_plus_cons, Hc, IH. now rewrite orb_true_r.
    + change ((c :: u) ++ w) with (c :: (u ++ w)). simpl app.
      rewrite matchHere_plus_cons, Hc. simpl app in IHu. now rewrite IHu.
Qed.

Lemma test_spec p s :
  test p s = true <->
  exists pre w post, s = pre ++ w ++ post /\ Denotes p w.
Proof.
  split.
  - induction s as [| c s IH]; simpl; intros H.
    + rewrite orb_false_r in H. apply matchHere_sound in H as (w & rest & E & Hw).
      exists [], w, rest. now split.
    + apply orb_true_iff in H as [H | H].
      * apply matchHere_sound in H as (w & rest & E & Hw).
        exists [], w, rest. now split.
      * destruct (IH H) as (pre & w & post & -> & Hw).
        exists (c :: pre), w, post. now split.
  - intros (pre & w & post & -> & Hw).
    induction pre as [| c pre IH].
    + apply matchHere_complete with (rest := post) in Hw.
      simpl app. destruct (w ++ post); simpl; now rewrite Hw.
    + simpl. rewrite IH. apply orb_true_r.
Qed.

Lemma Rep_NonSpace u : Rep NonSpace u <-> nonSpaceWord u.
Proof.
  split.
  - induction 1 as [c Hc | c w Hc Hw [_ IH]]; simpl in Hc;
      apply negb_true_iff in Hc; (split; [discriminate |]).
    + now repeat constructor.
    + now constructor.
  - intros [Hne Hall]. induction Hall as [| c u Hc Hu IH]; [congruence |].
    assert (Ha : accepts NonSpace c = true) by (simpl; now rewrite Hc).
    destruct u as [| d u]; [now apply Rep_one |].
    apply Rep_more; [assumption | apply IH; discriminate].
Qed.

Lemma Denotes_EMAIL_PATTERN w :
  Denotes LoginScreen.EMAIL_PATTERN w <->
  exists a b c, w = a ++ [64%N] ++ b ++ [46%N] ++ c /\
    nonSpaceWord a /\ nonSpaceWord b /\ nonSpaceWord c.
Proof.
  unfold LoginScreen.EMAIL_PATTERN. split.
  - intros H.
    inversion H as [| | ? ? a w1 Ha H1]; subst; clear H.
    inversion H1 as [| ? ? c1 w2 Hc1 H2 |]; subst; clear H1.
    inversion H2 as [| | ? ? b w3 Hb H3]; subst; clear H2.
    inversion H3 as [| ? ? c2 w4 Hc2 H4 |]; subst; clear H3.
    inversion H4 as [| | ? ? c w5 Hc H5]; subst; clear H4.
    inversion H5; subst; clear H5.
    simpl in Hc1, Hc2. apply N.eqb_eq in Hc1, Hc2. subst.
    exists a, b, c. rewrite app_nil_r. rewrite Rep_NonSpace in Ha, Hb, Hc.
    split; [reflexivity | auto].
  - intros (a & b & c & -> & Ha & Hb & Hc).
    rewrite <- Rep_NonSpace in Ha, Hb, Hc.
    constructor; [assumption |]. constructor; [reflexivity |].
    constructor; [assumption |]. constructor; [reflexivity |].
    rewrite <- (app_nil_r c). constructor; [assumption | constructor].
Qed.

Lemma test_EMAIL_PATTERN e :
  test LoginScreen.EMAIL_PATTERN e = true <-> validEmail e.
Proof.
  rewrite test_spec. unfold validEmail. split.
  - intros (pre & w & post & -> & Hw).
    apply Denotes_EMAIL_PATTERN in Hw as (a & b & c & -> & Ha & Hb & Hc).
    exists pre, a, b, c, post. split; [| auto].
    now rewrite <- !app_assoc.
  - intros (pre & a & b & c & post & -> & Ha & Hb & Hc).
    exists pre, (a ++ [64%N] ++ b ++ [46%N] ++ c), post. split.
    + now rewrite <- !app_assoc.
    + apply Denotes_EMAIL_PATTERN. now exists a, b, c.
Qed.

End RegExpFacts.

(* ================================================================== *)
(** * Login *)
(* ================================================================== *)

Section Login.

Import LoginScreen.

Lemma truthy_iff (s : jsstring) : JS.truthy s = true <-> s <> [].
Proof. destruct s; simpl; split; congruence. Qed.

Lemma handleSubmit_accepts f :
  JS.truthy (email f) = true ->
  JS.truthy (password f) = true ->
  RegExp.test EMAIL_PATTERN (email f) = true ->
  handleSubmit f = (setError [] f, Some (email f)).
Proof. intros H1 H2 H3. unfold handleSubmit. now rewrite H1, H2, H3. Qed.

Lemma handleSubmit_rejects f :
  JS.truthy (email f) && JS.truthy (password f)
    && RegExp.test EMAIL_PATTERN (email f) = false ->
  exists msg, msg <> [] /\ handleSubmit f = (setError msg f, None).
Proof.
  intros H. unfold handleSubmit.
  destruct (JS.truthy (email f)); simpl in *.
  - destruct (JS.truthy (password f)); simpl in *.
    + rewrite H. simpl. exists MSG_INVALID. split; [discriminate | reflexivity].
    + exists MSG_BOTH. split; [discriminate | reflexivity].
  - exists MSG_BOTH. split; [discriminate | reflexivity].
Qed.

(** C8. Submitting the login form while logged out logs in as the typed
    email exactly when the email is non-empty, contains a match of
    [\S+@\S+\.\S+] and the password is non-empty; the decision reads
    nothing but the two fields.  Otherwise the session state is
    untouched, hence still logged out, and the form shows a non-empty
    error message. *)
Theorem login_transition (a : App.State) (f : LoginScreen.State) :
  App.session a = App.LoggedOut ->
  let accepted :=
    email f <> [] /\ RegExp.test EMAIL_PATTERN (email f) = true /\
    password f <> [] in
  (App.session (fst (App.submit a f)) = App.LoggedIn (email f) <-> accepted) /\
  (RegExp.test EMAIL_PATTERN (email f) = true <-> validEmail (email f)) /\
  (accepted -> error (snd (App.submit a f)) = []) /\
  (~ accepted ->
     fst (App.submit a f) = a /\
     App.session (fst (App.submit a f)) = App.LoggedOut /\
     error (snd (App.submit a f)) <> []) /\
  email (snd (App.submit a f)) = email f /\
  password (snd (App.submit a f)) = password f.
Proof.
  intros Hout accepted.
  destruct (JS.truthy (email f) && JS.truthy (password f)
            && RegExp.test EMAIL_PATTERN (email f)) eqn:E.
  - apply andb_true_iff in E as [E E3]. apply andb_true_iff in E as [E1 E2].
    assert (Hacc : accepted).
    { unfold accepted. rewrite <- !truthy_iff. auto. }
    unfold App.submit. rewrite (handleSubmit_accepts _ E1 E2 E3). simpl.
    split; [tauto |]. split; [apply test_EMAIL_PATTERN |].
    split; [reflexivity |]. split; [tauto | split; reflexivity].
  - assert (Hrej : ~ accepted).
    { unfold accepted. rewrite <- !truthy_iff. intros (H1 & H3 & H2).
      now rewrite H1, H2, H3 in E. }
    destruct (handleSubmit_rejects _ E) as (msg & Hmsg & Hs).
    unfold App.submit. rewrite Hs. simpl.
    split; [rewrite Hout; split; [discriminate | tauto] |].
    split; [apply test_EMAIL_PATTERN |].
    split; [tauto |]. split; [auto | split; reflexivity].
Qed.

Lemma login_transition_witness :
  let f := LoginScreen.mkState (JS.lit "amina@example.org") (JS.lit "pw") [] in
  App.session App.initial = App.LoggedOut /\
  (App.session (fst (App.submit App.initial f)) = App.LoggedIn (email f) <->
   email f <> [] /\ RegExp.test EMAIL_PATTERN (email f) = true /\
   password f <> []).
Proof.
  intro f. split; [reflexivity |].
  exact (proj1 (login_transition App.initial f eq_refl)).
Defined.

End Login.

(* ================================================================== *)
(** * The merge step *)
(* ================================================================== *)

Section Merge.

Import Dashboard Turns.

Lemma Sender_eqb_eq a b : Sender_eqb a b = true <-> a = b.
Proof. destruct a, b; simpl; split; congruence. Qed.

Lemma Sender_eqb_refl a : Sender_eqb a a = true.
Proof. now destruct a. Qed.

Lemma Sender_eqb_sym a b : Sender_eqb a b = Sender_eqb b a.
Proof. now destruct a, b. Qed.

Lemma lastElem_snoc (A : Type) (l : list A) (x : A) :
  JS.lastElem (l ++ [x]) = Some x.
Proof.
  induction l as [| y l IH]; [reflexivity |].
  simpl. destruct (l ++ [x]) eqn:E; [now destruct l | exact IH].
Qed.

Lemma onePart_inv c :
  onePart c = true -> Gen.parts c = [Gen.mkPart (firstText c)].
Proof.
  unfold onePart, firstText. destruct (Gen.parts c) as [| [t] [| ? ?]];
    simpl; congruence.
Qed.

Lemma onePart_eta c :
  onePart c = true -> Gen.mkContent (Gen.role c) [Gen.mkPart (firstText c)] = c.
Proof.
  intros H. apply onePart_inv in H. destruct c as [r ps]. simpl in *.
  now rewrite H.
Qed.

(** One step of the reduction on an accumulator that ends in a one-part
    turn. *)
Lemma mergeStep_snoc acc lastMsg msg :
  onePart lastMsg = true -> onePart msg = true ->
  mergeStep (acc ++ [lastMsg]) msg =
  Some (if Sender_eqb (Gen.role lastMsg) (Gen.role msg)
        then acc ++ [appendText lastMsg (firstText msg)]
        else (acc ++ [lastMsg]) ++ [msg]).
Proof.
  intros Hl Hm. unfold mergeStep. rewrite lastElem_snoc.
  destruct (Sender_eqb (Gen.role lastMsg) (Gen.role msg)); [| reflexivity].
  rewrite (onePart_inv _ Hl), (onePart_inv _ Hm), removelast_last.
  reflexivity.
Qed.

Lemma groupRuns_nonempty cs : Forall (fun g => g <> []) (groupRuns cs).
Proof.
  induction cs as [| c cs IH]; simpl; [constructor |].
  destruct (groupRuns cs) as [| [| d g] gs].
  - repeat constructor. discriminate.
  - repeat constructor. discriminate.
  - destruct (Sender_eqb (Gen.role c) (Gen.role d)).
    + constructor; [discriminate | now inversion IH].
    + constructor; [discriminate | assumption].
Qed.

Lemma groupRuns_cons c cs :
  groupRuns (c :: cs) =
  match groupRuns cs with
  | [] => [[c]]
  | g :: gs =>
      if Sender_eqb (Gen.role c) (Gen.role (joinGroup g))
      then (c :: g) :: gs
      else [c] :: g :: gs
  end.
Proof.
  simpl. pose proof (groupRuns_nonempty cs) as Hne.
  destruct (groupRuns cs) as [| [| d g] gs]; [reflexivity | | reflexivity].
  inversion Hne; congruence.
Qed.

Lemma joinGroup_cons c g :
  g <> [] ->
  joinGroup (c :: g) = appendText c (joinLines (map firstText g)).
Proof.
  destruct g as [| d g]; [congruence | reflexivity].
Qed.

Lemma joinGroup_single c : onePart c = true -> joinGroup [c] = c.
Proof. intros H. unfold joinGroup. simpl. now apply onePart_eta. Qed.

(** Folding the head of a run into the accumulator first, or joining the
    whole run at once, gives the same turn. *)
Lemma appendText_assoc lastMsg c g :
  g <> [] ->
  appendText (appendText lastMsg (firstText c)) (joinLines (map firstText g)) =
  appendText lastMsg (joinLines (map firstText (c :: g))).
Proof.
  intros Hg. unfold appendText. simpl. f_equal. f_equal. f_equal.
  destruct g as [| d g]; [congruence |].
  unfold firstText at 1. cbn [Gen.parts Gen.text map].
  now rewrite <- app_assoc.
Qed.

Lemma absorb_cons lastMsg g gs :
  absorb lastMsg (g :: gs) =
  if Sender_eqb (Gen.role lastMsg) (Gen.role (joinGroup g))
  then appendText lastMsg (joinLines (map firstText g)) :: map joinGroup gs
  else lastMsg :: map joinGroup (g :: gs).
Proof. reflexivity. Qed.

Lemma role_joinGroup_cons c g : Gen.role (joinGroup (c :: g)) = Gen.role c.
Proof. reflexivity. Qed.

Lemma absorb_cons_same lastMsg c cs :
  Sender_eqb (Gen.role lastMsg) (Gen.role c) = true ->
  absorb (appendText lastMsg (firstText c)) (groupRuns cs) =
  absorb lastMsg (groupRuns (c :: cs)).
Proof.
  intros Hr. rewrite groupRuns_cons.
  pose proof (groupRuns_nonempty cs) as Hne.
  destruct (groupRuns cs) as [| g gs].
  - rewrite absorb_cons, role_joinGroup_cons, Hr. reflexivity.
  - assert (Hg : g <> []) by now inversion Hne.
    rewrite (absorb_cons (appendText _ _)). cbn [appendText Gen.role].
    destruct (Sender_eqb (Gen.role c) (Gen.role (joinGroup g))) eqn:E.
    + rewrite absorb_cons, role_joinGroup_cons, Hr.
      apply Sender_eqb_eq in Hr, E. rewrite Hr, <- E, Sender_eqb_refl.
      fold (appendText lastMsg (firstText c)).
      now rewrite appendText_assoc.
    + rewrite absorb_cons, role_joinGroup_cons, Hr.
      apply Sender_eqb_eq in Hr. rewrite Hr, E. reflexivity.
Qed.

Lemma absorb_joinGroup c cs :
  onePart c = true ->
  absorb c (groupRuns cs) = map joinGroup (groupRuns (c :: cs)).
Proof.
  intros Hc. rewrite groupRuns_cons.
  pose proof (groupRuns_nonempty cs) as Hne.
  destruct (groupRuns cs) as [| g gs].
  - cbn [absorb map]. now rewrite joinGroup_single.
  - assert (Hg : g <> []) by now inversion Hne.
    rewrite absorb_cons.
    destruct (Sender_eqb (Gen.role c) (Gen.role (joinGroup g))).
    + cbn [map]. now rewrite joinGroup_cons.
    + cbn [map]. now rewrite joinGroup_single.
Qed.

Lemma absorb_cons_other lastMsg c cs :
  onePart c = true ->
  Sender_eqb (Gen.role lastMsg) (Gen.role c) = false ->
  lastMsg :: absorb c (groupRuns cs) = absorb lastMsg (groupRuns (c :: cs)).
Proof.
  intros Hc Hr. rewrite (absorb_joinGroup _ _ Hc).
  rewrite groupRuns_cons.
  destruct (groupRuns cs) as [| g gs].
  - rewrite absorb_cons, role_joinGroup_cons, Hr. reflexivity.
  - destruct (Sender_eqb (Gen.role c) (Gen.role (joinGroup g)));
      rewrite absorb_cons, role_joinGroup_cons, Hr; reflexivity.
Qed.

Lemma onePart_appendText lastMsg t : onePart (appendText lastMsg t) = true.
Proof. reflexivity. Qed.

(** The reduction from an accumulator that ends in [lastMsg]. *)
Lemma reduce_mergeStep cs : forall acc lastMsg,
  onePart lastMsg = true ->
  Forall (fun c => onePart c = true) cs ->
  reduce mergeStep cs (acc ++ [lastMsg]) =
  Some (acc ++ absorb lastMsg (groupRuns cs)).
Proof.
  induction cs as [| c cs IH]; intros acc lastMsg Hl Hcs; [reflexivity |].
  inversion Hcs as [| ? ? Hc Hcs']; subst.
  cbn [reduce]. rewrite (mergeStep_snoc _ _ _ Hl Hc).
  destruct (Sender_eqb (Gen.role lastMsg) (Gen.role c)) eqn:E.
  - rewrite (IH _ _ (onePart_appendText _ _) Hcs').
    now rewrite absorb_cons_same.
  - rewrite (IH _ _ Hc Hcs'). rewrite <- app_assoc. simpl.
    now rewrite absorb_cons_other.
Qed.

(** The merge step folds every maximal run into one turn. *)
Lemma mergeContents_groupRuns cs :
  Forall (fun c => onePart c = true) cs ->
  mergeContents cs = Some (map joinGroup (groupRuns cs)).
Proof.
  intros Hcs. destruct cs as [| c cs]; [reflexivity |].
  inversion Hcs as [| ? ? Hc Hcs']; subst.
  unfold mergeContents.
  change (reduce mergeStep (c :: cs) []) with (reduce mergeStep cs ([] ++ [c])).
  rewrite (reduce_mergeStep cs [] c Hc Hcs').
  cbn [app]. now rewrite absorb_joinGroup.
Qed.

Lemma concat_groupRuns cs : concat (groupRuns cs) = cs.
Proof.
  induction cs as [| c cs IH]; [reflexivity |].
  rewrite groupRuns_cons. destruct (groupRuns cs) as [| g gs].
  - simpl in IH. subst. reflexivity.
  - destruct (Sender_eqb (Gen.role c) (Gen.role (joinGroup g)));
      simpl in *; now rewrite IH.
Qed.

Lemma groupRuns_one_role cs :
  Forall (fun g => Forall (fun c => Gen.role c = Gen.role (joinGroup g)) g)
         (groupRuns cs).
Proof.
  induction cs as [| c cs IH]; [constructor |].
  rewrite groupRuns_cons. destruct (groupRuns cs) as [| g gs].
  - repeat constructor.
  - destruct (Sender_eqb (Gen.role c) (Gen.role (joinGroup g))) eqn:E.
    + inversion IH as [| ? ? Hg Hgs]; subst. constructor; [| assumption].
      apply Sender_eqb_eq in E. constructor; [reflexivity |].
      rewrite role_joinGroup_cons.
      eapply Forall_impl; [| exact Hg].
      intros d Hd. cbv beta in Hd. now rewrite Hd, E.
    + constructor; [| assumption]. repeat constructor.
Qed.

Lemma alternating_cons a b rest :
  alternating (a :: b :: rest) =
  negb (Sender_eqb (Gen.role a) (Gen.role b)) && alternating (b :: rest).
Proof. reflexivity. Qed.

Lemma alternating_groupRuns cs :
  alternating (map joinGroup (groupRuns cs)) = true.
Proof.
  induction cs as [| c cs IH]; [reflexivity |].
  rewrite groupRuns_cons. destruct (groupRuns cs) as [| g gs]; [reflexivity |].
  destruct (Sender_eqb (Gen.role c) (Gen.role (joinGroup g))) eqn:E.
  - cbn [map] in *. destruct gs as [| h gs]; [reflexivity |].
    cbn [map] in *. rewrite alternating_cons in *.
    rewrite role_joinGroup_cons. apply Sender_eqb_eq in E. now rewrite E.
  - cbn [map] in *. rewrite alternating_cons, role_joinGroup_cons, E, IH.
    reflexivity.
Qed.

Lemma groupRuns_alternating cs :
  alternating cs = true -> groupRuns cs = map (fun c => [c]) cs.
Proof.
  induction cs as [| a cs IH]; [reflexivity |].
  intros H. rewrite groupRuns_cons. destruct cs as [| b cs]; [reflexivity |].
  rewrite alternating_cons in H. apply andb_true_iff in H as [Hab Hrest].
  rewrite (IH Hrest). cbn [map]. rewrite role_joinGroup_cons.
  apply negb_true_iff in Hab. now rewrite Hab.
Qed.

Lemma onePart_joinGroup gs :
  Forall (fun c => onePart c = true) (map joinGroup gs).
Proof. induction gs; constructor; auto. Qed.

(** The turns the handler builds have one part each. *)
Lemma onePart_contents hist :
  Forall (fun c => onePart c = true) (contents hist).
Proof.
  unfold contents. induction (filter _ hist); constructor; auto.
Qed.

(** On a list that already alternates, the merge step changes nothing. *)
Lemma mergeContents_alternating cs :
  Forall (fun c => onePart c = true) cs ->
  alternating cs = true ->
  mergeContents cs = Some cs.
Proof.
  intros Hone Halt. rewrite (mergeContents_groupRuns _ Hone).
  rewrite (groupRuns_alternating _ Halt). f_equal.
  clear Halt. induction Hone as [| c cs Hc Hcs IH]; [reflexivity |].
  cbn [map]. now rewrite joinGroup_single, IH.
Qed.

(** C2. On turns with one part each, as the handler builds them, the
    merge step returns a list in which no two neighbours have the same
    role: every maximal run of same-role neighbours has become one turn
    whose text joins the texts of the run with newlines.  Merging that
    result again returns it unchanged.  The turns built from any window
    of the log have one part each.  In particular the turns user A,
    user B, model C merge into user A-newline-B, model C. *)
Theorem merge_alternates_and_is_idempotent :
  (forall cs, Forall (fun c => onePart c = true) cs ->
     exists merged,
       mergeContents cs = Some merged /\
       merged = map joinGroup (groupRuns cs) /\
       alternating merged = true /\
       mergeContents merged = Some merged) /\
  (forall hist, Forall (fun c => onePart c = true) (contents hist)) /\
  mergeContents
    [turn user (JS.lit "A"); turn user (JS.lit "B"); turn model (JS.lit "C")] =
  Some [turn user (JS.lit "A" ++ [10%N] ++ JS.lit "B"); turn model (JS.lit "C")].
Proof.
  split; [| split; [exact onePart_contents | reflexivity]].
  intros cs Hcs. exists (map joinGroup (groupRuns cs)).
  split; [now apply mergeContents_groupRuns |].
  split; [reflexivity |].
  split; [apply alternating_groupRuns |].
  apply mergeContents_alternating;
    [apply onePart_joinGroup | apply alternating_groupRuns].
Qed.

Lemma merge_alternates_and_is_idempotent_witness :
  let cs := [turn user (JS.lit "A"); turn user (JS.lit "B");
             turn user (JS.lit "C"); turn model (JS.lit "D");
             turn model (JS.lit "E"); turn user (JS.lit "F")] in
  Forall (fun c => onePart c = true) cs /\
  exists merged,
    mergeContents cs = Some merged /\
    merged = map joinGroup (groupRuns cs) /\
    alternating merged = true /\
    mergeContents merged = Some merged.
Proof.
  intro cs. split.
  - repeat constructor.
  - apply (proj1 merge_alternates_and_is_idempotent cs). repeat constructor.
Defined.

(** C9. On turns with one part each, the merge step cuts the input into
    consecutive non-empty runs, in order and without dropping or
    repeating a turn; each output turn stands for one run, carries the
    role that all turns of the run share, and its text is the texts of
    the run in order with one newline between neighbours. *)
Theorem merge_loses_no_text (cs : list Gen.Content) :
  Forall (fun c => onePart c = true) cs ->
  exists groups,
    concat groups = cs /\
    Forall (fun g => g <> [] /\
                     Forall (fun c => Gen.role c = Gen.role (joinGroup g)) g)
           groups /\
    mergeContents cs =
    Some (map (fun g => turn (Gen.role (joinGroup g))
                             (joinLines (map firstText g))) groups).
Proof.
  intros Hcs. exists (groupRuns cs).
  split; [apply concat_groupRuns |]. split.
  - pose proof (groupRuns_nonempty cs) as H1.
    pose proof (groupRuns_one_role cs) as H2.
    induction H1 as [| g gs Hg Hgs IH]; [constructor |].
    inversion H2; subst. constructor; auto.
  - now apply mergeContents_groupRuns.
Qed.

Lemma merge_loses_no_text_witness :
  let cs := [turn model (JS.lit "Hello"); turn user (JS.lit "one");
             turn user (JS.lit "two"); turn user (JS.lit "three")] in
  Forall (fun c => onePart c = true) cs /\
  exists groups,
    concat groups = cs /\
    Forall (fun g => g <> [] /\
                     Forall (fun c => Gen.role c = Gen.role (joinGroup g)) g)
           groups /\
    mergeContents cs =
    Some (map (fun g => turn (Gen.role (joinGroup g))
                             (joinLines (map firstText g))) groups).
Proof.
  intro cs. split.
  - repeat constructor.
  - apply (merge_loses_no_text cs). repeat constructor.
Defined.

(** C4. The leading-turn fixup returns the tail of a list whose first
    turn has role model, whatever the tail is, and returns unchanged a
    list whose first turn has role user, and the empty list. *)
Theorem fixup_drops_only_a_leading_model_turn :
  (forall ps rest,
     dropLeadingModel (Gen.mkContent model ps :: rest) = rest) /\
  (forall ps rest,
     dropLeadingModel (Gen.mkContent user ps :: rest) =
     Gen.mkContent user ps :: rest) /\
  dropLeadingModel [] = [].
Proof. repeat split. Qed.

End Merge.

(* ================================================================== *)
(** * Windows: [slice] with a negative start *)
(* ================================================================== *)

Section Slice.

Variable A : Type.

Lemma sliceLast_length (k : nat) (l : list A) :
  List.length (JS.sliceLast k l) = Nat.min k (List.length l).
Proof. unfold JS.sliceLast. rewrite length_skipn. lia. Qed.

Lemma sliceLast_short (k : nat) (l : list A) :
  List.length l <= k -> JS.sliceLast k l = l.
Proof.
  intros H. unfold JS.sliceLast.
  replace (List.length l - k) with 0 by lia. reflexivity.
Qed.

(** The window is a suffix: order and neighbours are kept. *)
Lemma sliceLast_suffix (k : nat) (l : list A) :
  exists dropped, l = dropped ++ JS.sliceLast k l.
Proof.
  exists (firstn (List.length l - k) l). unfold JS.sliceLast.
  now rewrite firstn_skipn.
Qed.

Lemma sliceLast_snoc (k : nat) (l : list A) (x : A) :
  JS.sliceLast (S k) (l ++ [x]) = JS.sliceLast k l ++ [x].
Proof.
  unfold JS.sliceLast. rewrite length_app, skipn_app. simpl List.length.
  replace (List.length l + 1 - S k) with (List.length l - k) by lia.
  replace (List.length l - k - List.length l) with 0 by lia.
  reflexivity.
Qed.

Lemma sliceLast_idem_snoc (k : nat) (l : list A) (x : A) :
  JS.sliceLast (S k) (JS.sliceLast (S k) l ++ [x]) =
  JS.sliceLast (S k) (l ++ [x]).
Proof.
  rewrite !sliceLast_snoc. f_equal.
  unfold JS.sliceLast. rewrite length_skipn, skipn_skipn. f_equal. lia.
Qed.

End Slice.

(* ================================================================== *)
(** * Request assembly *)
(* ================================================================== *)

Section Assembly.

Import Dashboard Turns.

(** Assembly never throws: the merge sees one-part turns only. *)
Lemma assemble_total log :
  assemble log =
  Some (dropLeadingModel (map joinGroup (groupRuns (contents (history log))))).
Proof.
  unfold assemble.
  now rewrite (mergeContents_groupRuns _ (onePart_contents _)).
Qed.

Lemma Forall2_skipn_agree (R : Message -> Message -> Prop) n :
  forall l l', Forall2 R l l' -> Forall2 R (skipn n l) (skipn n l').
Proof.
  induction n as [| n IH]; intros l l' H; [exact H |].
  destruct H; simpl; [constructor | now apply IH].
Qed.

Lemma Forall2_same_length (R : Message -> Message -> Prop) l l' :
  Forall2 R l l' -> List.length l = List.length l'.
Proof. induction 1; simpl; congruence. Qed.

Lemma contents_agree l l' :
  Forall2 agreeOnVisible l l' -> contents l = contents l'.
Proof.
  unfold contents. induction 1 as [| m m' l l' [Hs Hv] _ IH]; [reflexivity |].
  simpl. rewrite <- Hs. destruct (silent m) eqn:E; simpl; [exact IH |].
  destruct (Hv eq_refl) as [Hsender Htext].
  unfold toContent at 1 3. now rewrite Hsender, Htext, IH.
Qed.

Lemma assemble_agree log log' :
  Forall2 agreeOnVisible log log' -> assemble log' = assemble log.
Proof.
  intros H. unfold assemble, history, JS.sliceLast.
  rewrite <- (Forall2_same_length _ _ _ H).
  now rewrite (contents_agree _ _ (Forall2_skipn_agree _ _ _ _ H)).
Qed.

Lemma in_history msg log : In msg (history log) -> In msg log.
Proof.
  intros H. destruct (sliceLast_suffix _ 20 log) as [dropped E].
  rewrite E. apply in_or_app. now right.
Qed.

Lemma in_dropLeadingModel c merged :
  In c (dropLeadingModel merged) -> In c merged.
Proof.
  destruct merged as [| first rest]; [auto |].
  simpl. destruct (Gen.role first); simpl; auto.
Qed.

(** A list of turns out of [map toContent kept] comes from messages of
    [kept]. *)
Lemma preimage_toContent kept g0 :
  Forall (fun c => In c (map toContent kept)) g0 ->
  exists g, map toContent g = g0 /\ Forall (fun msg => In msg kept) g.
Proof.
  induction 1 as [| c g0 Hc _ (g & Hg & Hin)].
  - exists []. split; constructor.
  - apply in_map_iff in Hc as (msg & Hmsg & Hk).
    exists (msg :: g). split; [simpl; congruence | now constructor].
Qed.

Lemma joinGroup_toContent msg g :
  joinGroup (map toContent (msg :: g)) =
  turn (sender msg) (joinLines (map text (msg :: g))).
Proof.
  unfold joinGroup, turn. cbn [map toContent Gen.role]. f_equal. f_equal.
  f_equal. change (text msg :: map firstText (map toContent g))
    with (map firstText (map toContent (msg :: g))).
  rewrite map_map. reflexivity.
Qed.

(** Every merged turn is made of non-silent messages of the log, all
    written by the turn's role. *)
Lemma merged_turn_provenance log c :
  In c (map joinGroup (groupRuns (contents (history log)))) ->
  exists g, g <> [] /\
    Forall (fun msg => In msg log /\ silent msg = false /\
                       sender msg = Gen.role c) g /\
    c = turn (Gen.role c) (joinLines (map text g)).
Proof.
  intros H. apply in_map_iff in H as (g0 & <- & Hg0).
  set (kept := filter (fun msg => negb (silent msg)) (history log)).
  assert (Hne : g0 <> []).
  { pose proof (groupRuns_nonempty (contents (history log))) as F.
    rewrite Forall_forall in F. now apply F. }
  assert (Hrole : Forall (fun c0 => Gen.role c0 = Gen.role (joinGroup g0)) g0).
  { pose proof (groupRuns_one_role (contents (history log))) as F.
    rewrite Forall_forall in F. now apply F. }
  assert (Hin : Forall (fun c0 => In c0 (map toContent kept)) g0).
  { apply Forall_forall. intros c0 Hc0.
    change (map toContent kept) with (contents (history log)).
    rewrite <- (concat_groupRuns (contents (history log))).
    apply in_concat. now exists g0. }
  destruct (preimage_toContent _ _ Hin) as (g & <- & Hg).
  destruct g as [| msg g]; [now destruct Hne |].
  exists (msg :: g). split; [discriminate |]. split.
  - rewrite Forall_forall in *. intros m Hm.
    specialize (Hg m Hm). apply filter_In in Hg as [Hh Hs].
    split; [now apply in_history |].
    split; [now apply negb_true_iff in Hs |].
    apply (Hrole (toContent m)). now apply in_map.
  - now rewrite joinGroup_toContent.
Qed.

(** C1. The filtering step keeps no entry whose [isSilent] flag is set,
    and the merge step runs on what the filter kept.  So every assembled
    turn consists of non-silent entries of the log only: its text is
    the newline-joined texts of non-silent entries written by its role.
    What silent entries say never reaches the request: two logs that
    differ only in the sender and text of their silent entries are
    assembled into the same turns. *)
Theorem silent_entries_are_not_sent (log : list Message) :
  Forall (fun msg => silent msg = false)
         (filter (fun msg => negb (silent msg)) (history log)) /\
  exists assembled,
    assemble log = Some assembled /\
    Forall (fun c =>
              exists g, g <> [] /\
                Forall (fun msg => In msg log /\ silent msg = false /\
                                   sender msg = Gen.role c) g /\
                c = turn (Gen.role c) (joinLines (map text g)))
           assembled /\
    forall log', Forall2 agreeOnVisible log log' ->
                 assemble log' = Some assembled.
Proof.
  split.
  - apply Forall_forall. intros msg H. apply filter_In in H as [_ H].
    now apply negb_true_iff in H.
  - eexists. split; [apply assemble_total |]. split.
    + apply Forall_forall. intros c Hc.
      apply merged_turn_provenance. now apply in_dropLeadingModel.
    + intros log' H. rewrite (assemble_agree _ _ H). apply assemble_total.
Qed.

Lemma silent_entries_are_not_sent_witness :
  let feeling := mkMessage user (JS.lit "I'm feeling sad.") (Some true) in
  let other := mkMessage model (JS.lit "something else") (Some true) in
  let log := INITIAL_MESSAGES ++ [feeling; mkMessage user (JS.lit "Hi") None] in
  let log' := INITIAL_MESSAGES ++ [other; mkMessage user (JS.lit "Hi") None] in
  Forall2 agreeOnVisible log log' /\
  assemble log = Some [turn user (JS.lit "Hi")] /\
  assemble log' = Some [turn user (JS.lit "Hi")].
Proof.
  intros feeling other log log'.
  assert (H : Forall2 agreeOnVisible log log').
  { repeat constructor; simpl; discriminate. }
  split; [exact H |].
  destruct (silent_entries_are_not_sent log) as (_ & assembled & Ha & _ & Hb).
  specialize (Hb log' H).
  assert (E : assemble log = Some [turn user (JS.lit "Hi")]) by reflexivity.
  rewrite E in Ha. injection Ha as <-.
  split; [exact E | exact Hb].
Defined.

End Assembly.

(* ================================================================== *)
(** * Sending a message *)
(* ================================================================== *)

Section SendMessage.

Import Dashboard Turns.

Lemma applyAll_app us vs s :
  applyAll (us ++ vs) s = applyAll vs (applyAll us s).
Proof. unfold applyAll. apply fold_left_app. Qed.

Lemma commit_nothing w : commit w ([], None) = w.
Proof. now destruct w. Qed.

Lemma blank_rev s : blank (rev s) = blank s.
Proof.
  unfold blank. induction s as [| c s IH]; [reflexivity |].
  simpl. rewrite forallb_app, IH. simpl. rewrite andb_true_r.
  apply andb_comm.
Qed.

Lemma trimStart_blank s : blank s = true -> JS.trimStart s = [].
Proof.
  unfold blank. induction s as [| c s IH]; [reflexivity |].
  simpl. intros H. apply andb_true_iff in H as [Hc Hs]. now rewrite Hc, IH.
Qed.

Lemma blank_trimStart s : blank (JS.trimStart s) = true -> blank s = true.
Proof.
  unfold blank. induction s as [| c s IH]; [reflexivity |].
  simpl. destruct (JS.isWhiteSpace c) eqn:E.
  - exact IH.
  - simpl. now rewrite E.
Qed.

(** [!s.trim()] holds exactly for the empty and the whitespace-only
    strings. *)
Lemma trim_falsy_iff s : JS.truthy (JS.trim s) = false <-> blank s = true.
Proof.
  unfold JS.trim, JS.trimEnd. split.
  - intros H. apply blank_trimStart. rewrite <- blank_rev.
    apply blank_trimStart.
    destruct (JS.trimStart (rev (JS.trimStart s))) as [| c t] eqn:E;
      [reflexivity |].
    simpl in H. destruct (rev t ++ [c]) eqn:E'; [| discriminate].
    now destruct (rev t).
  - intros H. now rewrite (trimStart_blank _ H).
Qed.

(** C10. When the text to send is empty or whitespace only, or the
    loading flag of the snapshot is set, [handleSendMessage] queues no
    state update and issues no call: the dashboard, with its message
    log, input draft, loading flag, error string and list of issued
    calls, is what it was.  So a form submission in such a state is a
    step to the same state. *)
Theorem send_ignored_when_blank_or_loading
    (w : Instance) (arg : option jsstring) :
  blank (match arg with Some t => t | None => input (st w) end) = true \/
  isLoading (st w) = true ->
  handleSendMessage (st w) arg = ([], None) /\
  commit w (handleSendMessage (st w) arg) = w /\
  (arg = None -> step w Send = Some w).
Proof.
  intros H.
  assert (E : handleSendMessage (st w) arg = ([], None)).
  { unfold handleSendMessage.
    destruct H as [H | H].
    - apply trim_falsy_iff in H. now rewrite H.
    - rewrite H, orb_true_r. reflexivity. }
  split; [exact E |].
  assert (C : commit w (handleSendMessage (st w) arg) = w)
    by (rewrite E; apply commit_nothing).
  split; [exact C |].
  intros ->. cbn [step]. now rewrite C.
Qed.

Lemma send_ignored_when_blank_or_loading_witness :
  let w := mkInstance
             (mkState INITIAL_MESSAGES (JS.lit "  ") false [] false None []
                [] false (Some Client)) [] 0 in
  (blank (input (st w)) = true \/ isLoading (st w) = true) /\
  handleSendMessage (st w) None = ([], None) /\
  commit w (handleSendMessage (st w) None) = w /\
  (@None jsstring = None -> step w Send = Some w).
Proof.
  intro w. split.
  - left. reflexivity.
  - apply (send_ignored_when_blank_or_loading w None). left. reflexivity.
Defined.

(** C3. A remote call that raises makes the continuation of the handler
    append exactly the fallback message, a model message with the fixed
    text, to the log as it is then, and clear the loading flag; no other
    field of the state and no issued call changes.  A send with no
    client behaves the same way without issuing a call: after the user
    message the log gains the fallback message and nothing else, and
    the loading flag ends false. *)
Theorem failure_appends_one_fallback :
  (forall w w', step w (Settle Rejected) = Some w' ->
     st w' =
       mkState
         (messages (st w) ++
          [mkMessage model
             (JS.lit "I'm having a little trouble connecting right now. Please try again in a moment.")
             None])
         (input (st w)) false (error (st w)) (isToolModalOpen (st w))
         (activeTool (st w)) (moodHistory (st w)) (journalPrompt (st w))
         (isDropdownOpen (st w)) (aiRef (st w)) /\
     issued w' = issued w) /\
  (forall w arg,
     let messageText := match arg with Some t => t | None => input (st w) end in
     aiRef (st w) = None ->
     blank messageText = false ->
     isLoading (st w) = false ->
     let w' := commit w (handleSendMessage (st w) arg) in
     messages (st w') =
       messages (st w) ++ [mkMessage user messageText None; errorMessage] /\
     isLoading (st w') = false /\
     issued w' = issued w).
Proof.
  split.
  - intros w w' H. cbn [step] in H.
    destruct (settled w <? List.length (issued w)); [| discriminate].
    injection H as <-. split; reflexivity.
  - intros w arg messageText Hai Hblank Hload w'.
    assert (Ht : JS.truthy (JS.trim messageText) = true).
    { destruct (JS.truthy (JS.trim messageText)) eqn:T; [reflexivity |].
      apply trim_falsy_iff in T. congruence. }
    subst w'. unfold handleSendMessage. fold messageText.
    rewrite Ht, Hload, Hai. cbn [negb orb requestPhase afterTry].
    unfold commit. cbn [fst snd st issued].
    destruct (JS.eqb messageText (input (st w)));
      cbn -[JS.lit]; rewrite <- app_assoc; repeat split.
Qed.

Lemma failure_appends_one_fallback_witness :
  exists w w',
    run (mount true 0) [ChangeInput (JS.lit "hi"); Send] = Some w /\
    step w (Settle Rejected) = Some w' /\
    messages (st w') =
      INITIAL_MESSAGES ++ [mkMessage user (JS.lit "hi") None; errorMessage] /\
    isLoading (st w') = false /\
    issued w' = [[turn user (JS.lit "hi")]].
Proof.
  destruct (run (mount true 0) [ChangeInput (JS.lit "hi"); Send])
    as [w |] eqn:E; [| vm_compute in E; discriminate].
  destruct (step w (Settle Rejected)) as [w' |] eqn:E';
    [| vm_compute in E; injection E as <-; vm_compute in E'; discriminate].
  exists w, w'. split; [reflexivity |]. split; [exact E' |].
  destruct (proj1 failure_appends_one_fallback w w' E') as [Hs Hi].
  rewrite Hs, Hi. vm_compute in E. injection E as <-.
  split; [reflexivity |]. split; reflexivity.
Defined.

Lemma reduce_snoc (A B : Type) (f : B -> A -> option B) l x : forall acc,
  reduce f (l ++ [x]) acc =
  match reduce f l acc with
  | Some acc' => f acc' x
  | None => None
  end.
Proof.
  induction l as [| y l IH]; intros acc; simpl.
  - now destruct (f acc x).
  - destruct (f acc y); [apply IH | reflexivity].
Qed.

Lemma mergeStep_last acc msg out :
  mergeStep acc msg = Some out ->
  exists before lastMsg,
    out = before ++ [lastMsg] /\ Gen.role lastMsg = Gen.role msg.
Proof.
  unfold mergeStep. destruct (JS.lastElem acc) as [lastMsg |].
  - destruct (Sender_eqb (Gen.role lastMsg) (Gen.role msg)) eqn:E.
    + destruct (Gen.parts lastMsg) as [| p ps]; [discriminate |].
      destruct (Gen.parts msg) as [| q qs]; [discriminate |].
      intros [= <-]. apply Sender_eqb_eq in E. eauto.
    + intros [= <-]. eauto.
  - intros [= <-]. eauto.
Qed.

(** The guard of C5 is not reached from [handleSendMessage] itself: the
    user message just appended is never silent and is the last of the
    window, so a user turn is always left. *)
Lemma send_always_has_a_turn (ai : option GoogleGenAI) msgs messageText :
  requestPhase ai (msgs ++ [mkMessage user messageText None]) <> Returned.
Proof.
  unfold requestPhase. destruct ai; [| discriminate].
  destruct (assemble _) as [[| c cs] |] eqn:E; try discriminate.
  exfalso. unfold assemble in E.
  destruct (mergeContents _) as [merged |] eqn:M; [| discriminate].
  injection E as E.
  unfold history in M. change 20 with (S 19) in M.
  rewrite sliceLast_snoc in M. unfold contents in M.
  rewrite filter_app, map_app in M. cbn [filter silent isSilent negb map] in M.
  unfold mergeContents in M. rewrite reduce_snoc in M.
  destruct (reduce mergeStep _ []) as [acc |]; [| discriminate].
  apply mergeStep_last in M as (before & lastMsg & -> & R).
  cbn [toContent Gen.role sender] in R.
  destruct before as [| b before]; simpl in E.
  - now rewrite R in E.
  - destruct (Gen.role b); [discriminate |]. now destruct before.
Qed.

(** C5. When windowing, filtering, merging and the fixup leave no turn,
    the handler takes the early return: no call is issued, and the only
    updates queued from there on clear the loading flag, so the message
    log and every other field stay as they are. *)
Theorem empty_turn_list_aborts (ai : GoogleGenAI)
    (messagesWithUser : list Message) :
  assemble messagesWithUser = Some [] ->
  requestPhase (Some ai) messagesWithUser = Returned /\
  snd (afterTry (requestPhase (Some ai) messagesWithUser)) = None /\
  forall s,
    let s' := applyAll (fst (afterTry (requestPhase (Some ai) messagesWithUser))) s in
    s' = setIsLoading false s /\
    messages s' = messages s /\
    isLoading s' = false.
Proof.
  intros H. unfold requestPhase. rewrite H. repeat split.
Qed.

Lemma empty_turn_list_aborts_witness :
  assemble INITIAL_MESSAGES = Some [] /\
  requestPhase (Some Client) INITIAL_MESSAGES = Returned /\
  snd (afterTry (requestPhase (Some Client) INITIAL_MESSAGES)) = None.
Proof.
  split; [reflexivity |].
  destruct (empty_turn_list_aborts Client INITIAL_MESSAGES eq_refl)
    as (H1 & H2 & _).
  split; [exact H1 | exact H2].
Defined.

End SendMessage.

(* ================================================================== *)
(** * Runs of the dashboard *)
(* ================================================================== *)

Section Runs.

Import Dashboard Turns.

Lemma appendsToLog_applyAll us :
  Forall appendsToLog us -> appendsToLog (applyAll us).
Proof.
  induction us as [| u us IH] using rev_ind; intros H s.
  - split; [exists []; now rewrite app_nil_r | reflexivity].
  - apply Forall_app in H as [Hus Hu]. inversion Hu as [| ? ? Hu' _]; subst.
    rewrite applyAll_app. cbn [applyAll fold_left].
    destruct (IH Hus s) as [[a1 E1] M1].
    destruct (Hu' (applyAll us s)) as [[a2 E2] M2].
    split; [| congruence].
    exists (a1 ++ a2). unfold applyAll in *. rewrite E2, E1.
    now rewrite app_assoc.
Qed.

Ltac appends_step :=
  intros s; split;
  [ first [ now (exists []; cbn; rewrite app_nil_r)
          | now (eexists; cbn; reflexivity) ]
  | reflexivity ].

Ltac appends_all :=
  repeat (apply Forall_cons; [appends_step |]); apply Forall_nil.

Lemma appendsToLog_catchFinally : Forall appendsToLog catchFinally.
Proof. appends_all. Qed.

Lemma appendsToLog_onSettled r : Forall appendsToLog (onSettled r).
Proof. destruct r; appends_all. Qed.

Lemma appendsToLog_afterTry r : Forall appendsToLog (fst (afterTry r)).
Proof. destruct r; appends_all. Qed.

Lemma fst_handleSendMessage snap arg :
  let messageText := match arg with Some t => t | None => input snap end in
  fst (handleSendMessage snap arg) =
  if negb (JS.truthy (JS.trim messageText)) || isLoading snap then []
  else
    [setMessages (fun prev => prev ++ [mkMessage user messageText None])] ++
    (if JS.eqb messageText (input snap) then [setInput (fun _ => [])] else []) ++
    [setIsLoading true; setError []] ++
    fst (afterTry (requestPhase (aiRef snap)
                     (messages snap ++ [mkMessage user messageText None]))).
Proof.
  intros messageText. unfold handleSendMessage. fold messageText.
  destruct (negb (JS.truthy (JS.trim messageText)) || isLoading snap);
    [reflexivity |].
  destruct (afterTry _) as [rest call]. cbn [fst].
  now rewrite <- !app_assoc.
Qed.

Lemma appendsToLog_handleSendMessage snap arg :
  Forall appendsToLog (fst (handleSendMessage snap arg)).
Proof.
  rewrite fst_handleSendMessage.
  destruct (negb _ || isLoading snap); [constructor |].
  repeat (apply Forall_app; split).
  - appends_all.
  - destruct (JS.eqb _ _); appends_all.
  - appends_all.
  - apply appendsToLog_afterTry.
Qed.

Lemma fst_handleMoodSelection snap m now :
  fst (handleMoodSelection snap m now) =
  [ setMoodHistory (fun prev => JS.sliceLast 7 (prev ++ [mkMoodEntry m now]));
    setMessages (fun prev =>
      prev ++ [mkMessage user
                 (JS.lit "I'm feeling " ++ moodKey m ++ JS.lit ".")
                 (Some true)]) ] ++
  fst (handleSendMessage snap (Some (moodPrompt m))).
Proof.
  unfold handleMoodSelection. now destruct (handleSendMessage _ _).
Qed.

(** What one event does to the message log and to the mood history. *)
Lemma step_effect w e w' :
  step w e = Some w' ->
  match e with
  | NewChat => messages (st w') = INITIAL_MESSAGES
  | _ => exists added, messages (st w') = messages (st w) ++ added
  end /\
  moodHistory (st w') =
  match e with
  | SelectMood m now => JS.sliceLast 7 (moodHistory (st w) ++ [mkMoodEntry m now])
  | _ => moodHistory (st w)
  end.
Proof.
  destruct e; cbn [step]; intros H;
    try (injection H as <-; cbn [commit st fst];
         try (apply appendsToLog_applyAll; appends_all)).
  - apply appendsToLog_applyAll, appendsToLog_handleSendMessage.
  - rewrite fst_handleMoodSelection, applyAll_app.
    set (s1 := applyAll _ (st w)).
    destruct (appendsToLog_applyAll _
                (appendsToLog_handleSendMessage (st w) (Some (moodPrompt m))) s1)
      as [[added E] M].
    rewrite E, M. subst s1. cbn -[JS.lit JS.sliceLast]. split; [| reflexivity].
    eexists. rewrite <- app_assoc. reflexivity.
  - split; reflexivity.
  - destruct (settled w <? List.length (issued w)); [| discriminate].
    injection H as <-. cbn [st].
    apply appendsToLog_applyAll, appendsToLog_onSettled.
Qed.

Lemma moodHistory_run es : forall w w' h,
  moodHistory (st w) = JS.sliceLast 7 h ->
  run w es = Some w' ->
  moodHistory (st w') = JS.sliceLast 7 (h ++ selections es).
Proof.
  induction es as [| e es IH]; intros w w' h Hh H; cbn [run] in H.
  - injection H as <-. now rewrite app_nil_r.
  - destruct (step w e) as [w1 |] eqn:E; [| discriminate].
    destruct (step_effect _ _ _ E) as [_ M].
    destruct e; try (cbn [selections]; apply (IH w1 w' h); [congruence | exact H]).
    cbn [selections].
    replace (h ++ mkMoodEntry m now :: selections es)
      with ((h ++ [mkMoodEntry m now]) ++ selections es)
      by now rewrite <- app_assoc.
    apply (IH w1 w'); [| exact H].
    rewrite M, Hh. apply sliceLast_idem_snoc.
Qed.

Lemma messages_run es : forall w w',
  (exists tail, messages (st w) = INITIAL_MESSAGES ++ tail) ->
  run w es = Some w' ->
  exists tail, messages (st w') = INITIAL_MESSAGES ++ tail.
Proof.
  induction es as [| e es IH]; intros w w' Hw H; cbn [run] in H.
  - now injection H as <-.
  - destruct (step w e) as [w1 |] eqn:E; [| discriminate].
    apply (IH w1 w'); [| exact H].
    destruct (step_effect _ _ _ E) as [L _]. destruct Hw as [tail Hw].
    destruct e;
      first [ now (exists []; rewrite L, app_nil_r)
            | destruct L as [added L]; exists (tail ++ added);
              rewrite L, Hw; now rewrite <- app_assoc ].
Qed.

(** C6. After any sequence of events on a mounted dashboard the mood
    history is the last seven of the entries selected so far, in the
    order of selection, so it never has more than seven entries; adding
    an entry to a history of seven drops the oldest one and keeps the
    other six followed by the new entry. *)
Theorem mood_history_keeps_last_seven :
  (forall clientOk randomIndex es w,
     run (mount clientOk randomIndex) es = Some w ->
     moodHistory (st w) = JS.sliceLast 7 (selections es) /\
     List.length (moodHistory (st w)) <= 7) /\
  (forall w m now w',
     step w (SelectMood m now) = Some w' ->
     moodHistory (st w') =
       JS.sliceLast 7 (moodHistory (st w) ++ [mkMoodEntry m now])) /\
  (forall oldest others newest,
     List.length (oldest :: others) = 7 ->
     JS.sliceLast 7 ((oldest :: others) ++ [newest : MoodEntry]) =
     others ++ [newest]).
Proof.
  split; [| split].
  - intros clientOk randomIndex es w H.
    assert (E : moodHistory (st w) = JS.sliceLast 7 (selections es)).
    { apply (moodHistory_run es (mount clientOk randomIndex) w []);
        [now destruct clientOk | exact H]. }
    split; [exact E |]. rewrite E, sliceLast_length. lia.
  - intros w m now w' H. exact (proj2 (step_effect _ _ _ H)).
  - intros oldest others newest H. unfold JS.sliceLast.
    rewrite length_app. simpl List.length in *.
    match goal with
    | |- skipn ?n _ = _ => replace n with 1 by lia
    end.
    reflexivity.
Qed.

Lemma mood_history_keeps_last_seven_witness :
  let es := [SelectMood happy 1; SelectMood sad 2; Send; SelectMood neutral 3;
             SelectMood anxious 4; NewChat; SelectMood happy 5;
             SelectMood sad 6; SelectMood sad 7; SelectMood neutral 8]%Z in
  exists w,
    run (mount true 0) es = Some w /\
    moodHistory (st w) =
      [mkMoodEntry sad 2; mkMoodEntry neutral 3; mkMoodEntry anxious 4;
       mkMoodEntry happy 5; mkMoodEntry sad 6; mkMoodEntry sad 7;
       mkMoodEntry neutral 8]%Z /\
    List.length (moodHistory (st w)) <= 7.
Proof.
  intro es.
  destruct (run (mount true 0) es) as [w |] eqn:E;
    [| vm_compute in E; discriminate].
  exists w. split; [reflexivity |].
  destruct (proj1 mood_history_keeps_last_seven true 0 es w E) as [H1 H2].
  split; [rewrite H1; reflexivity | exact H2].
Defined.

(** C7. The log of a mounted dashboard starts with the seed greeting,
    the single model message of [INITIAL_MESSAGES], after any sequence
    of events, so it is never empty.  Every event other than the
    new-chat reset only appends to the log; the reset puts the seed
    greeting back. *)
Theorem log_starts_with_seed_greeting :
  (exists greeting,
     INITIAL_MESSAGES = [greeting] /\ sender greeting = model /\
     silent greeting = false) /\
  (forall clientOk randomIndex es w,
     run (mount clientOk randomIndex) es = Some w ->
     exists tail, messages (st w) = INITIAL_MESSAGES ++ tail) /\
  (forall w e w',
     step w e = Some w' -> e <> NewChat ->
     exists added, messages (st w') = messages (st w) ++ added) /\
  (forall w w',
     step w NewChat = Some w' -> messages (st w') = INITIAL_MESSAGES).
Proof.
  split; [| split; [| split]].
  - eexists. repeat split.
  - intros clientOk randomIndex es w H.
    apply (messages_run es (mount clientOk randomIndex) w); [| exact H].
    exists []. now destruct clientOk.
  - intros w e w' H Hne. destruct (step_effect _ _ _ H) as [L _].
    destruct e; try exact L. now destruct Hne.
  - intros w w' H. exact (proj1 (step_effect _ _ _ H)).
Qed.

Lemma log_starts_with_seed_greeting_witness :
  let es := [ChangeInput (JS.lit "I feel stuck."); Send;
             Settle (Resolved (JS.lit "I hear you.")); SelectMood sad 9%Z;
             Settle Rejected; NewChat; SelectMood happy 10%Z] in
  exists w tail,
    run (mount true 2) es = Some w /\
    messages (st w) = INITIAL_MESSAGES ++ tail.
Proof.
  intro es.
  destruct (run (mount true 2) es) as [w |] eqn:E;
    [| vm_compute in E; discriminate].
  destruct (proj1 (proj2 log_starts_with_seed_greeting) true 2 es w E)
    as [tail H].
  exists w, tail. split; [reflexivity | exact H].
Defined.

End Runs.

(* ================================================================== *)
(** * The request that is sent *)
(* ================================================================== *)

Section Requests.

Import Dashboard Turns.

Lemma sliceLast_app_long (A : Type) (k : nat) (older recent : list A) :
  k <= List.length recent ->
  JS.sliceLast k (older ++ recent) = JS.sliceLast k recent.
Proof.
  intros H. unfold JS.sliceLast. rewrite length_app, skipn_app.
  rewrite skipn_all2 by lia. simpl. f_equal. lia.
Qed.

(** X1. The window of the request is the tail of the log: nothing in it
    is reordered or skipped, it has twenty entries or the whole log when
    that is shorter, and entries older than the last twenty have no
    influence on the assembled turns. *)
Theorem window_is_the_recent_suffix :
  (forall log, exists dropped,
     log = dropped ++ history log /\
     List.length (history log) = Nat.min 20 (List.length log)) /\
  (forall older recent,
     20 <= List.length recent ->
     history (older ++ recent) = history recent /\
     assemble (older ++ recent) = assemble recent).
Proof.
  split.
  - intros log. destruct (sliceLast_suffix _ 20 log) as [dropped E].
    exists dropped. split; [exact E | apply sliceLast_length].
  - intros older recent H.
    assert (E : history (older ++ recent) = history recent)
      by now apply sliceLast_app_long.
    split; [exact E |]. unfold assemble. now rewrite E.
Qed.

Lemma window_is_the_recent_suffix_witness :
  let recent := repeat (mkMessage user (JS.lit "x") None) 20 in
  let older := [mkMessage model (JS.lit "old") None] in
  20 <= List.length recent /\
  assemble (older ++ recent) = assemble recent.
Proof.
  intros recent older.
  assert (H : 20 <= List.length recent) by (vm_compute; lia).
  split; [exact H |].
  exact (proj2 (proj2 window_is_the_recent_suffix older recent H)).
Defined.

Lemma alternating_tail a l : alternating (a :: l) = true -> alternating l = true.
Proof.
  destruct l as [| b l]; [reflexivity |]. rewrite alternating_cons.
  intros H. now apply andb_true_iff in H.
Qed.

Lemma dropLeadingModel_alternating l :
  alternating l = true ->
  alternating (dropLeadingModel l) = true /\
  match dropLeadingModel l with
  | c :: _ => Gen.role c = user
  | [] => True
  end.
Proof.
  destruct l as [| a l]; [now split |]. intros H. simpl.
  destruct (Gen.role a) eqn:Ra; [now split |]. split.
  - now apply alternating_tail in H.
  - destruct l as [| b l]; [exact I |]. rewrite alternating_cons in H.
    apply andb_true_iff in H as [H _]. rewrite Ra in H.
    now destruct (Gen.role b).
Qed.

Lemma mergeStep_last_text acc msg out :
  mergeStep acc msg = Some out ->
  exists before lastMsg pre,
    out = before ++ [lastMsg] /\ Gen.role lastMsg = Gen.role msg /\
    firstText lastMsg = pre ++ firstText msg.
Proof.
  unfold mergeStep. destruct (JS.lastElem acc) as [lastMsg |].
  - destruct (Sender_eqb (Gen.role lastMsg) (Gen.role msg)) eqn:E.
    + destruct (Gen.parts lastMsg) as [| p ps]; [discriminate |].
      destruct (Gen.parts msg) as [| q qs] eqn:Q; [discriminate |].
      intros [= <-]. apply Sender_eqb_eq in E.
      eexists _, _, (Gen.text p ++ [10%N]). split; [reflexivity |].
      split; [exact E |]. unfold firstText. rewrite Q. cbn [Gen.parts Gen.text].
      now rewrite <- app_assoc.
    + intros [= <-]. now exists acc, msg, [].
  - intros [= <-]. now exists acc, msg, [].
Qed.

Lemma length_groupRuns cs : List.length (groupRuns cs) <= List.length cs.
Proof.
  induction cs as [| c cs IH]; [reflexivity |].
  rewrite groupRuns_cons. destruct (groupRuns cs) as [| g gs]; simpl in *;
    [lia |].
  destruct (Sender_eqb _ _); simpl; lia.
Qed.

Lemma length_dropLeadingModel l :
  List.length (dropLeadingModel l) <= List.length l.
Proof.
  destruct l as [| a l]; [reflexivity |]. simpl.
  destruct (Gen.role a); simpl; lia.
Qed.

Lemma length_assemble log req :
  assemble log = Some req -> List.length req <= 20.
Proof.
  rewrite assemble_total. intros [= <-].
  etransitivity; [apply length_dropLeadingModel |].
  rewrite length_map. etransitivity; [apply length_groupRuns |].
  unfold contents. rewrite length_map.
  etransitivity; [apply filter_length_le |].
  unfold history. rewrite sliceLast_length. lia.
Qed.

Lemma snd_handleSendMessage snap arg :
  let messageText := match arg with Some t => t | None => input snap end in
  snd (handleSendMessage snap arg) =
  if negb (JS.truthy (JS.trim messageText)) || isLoading snap then None
  else snd (afterTry (requestPhase (aiRef snap)
                        (messages snap ++ [mkMessage user messageText None]))).
Proof.
  intros messageText. unfold handleSendMessage. fold messageText.
  destruct (negb (JS.truthy (JS.trim messageText)) || isLoading snap);
    [reflexivity |].
  now destruct (afterTry _).
Qed.

Lemma requestPhase_call ai log req :
  snd (afterTry (requestPhase ai log)) = Some req ->
  ai <> None /\ assemble log = Some req /\ req <> [].
Proof.
  unfold requestPhase. destruct ai; [| discriminate].
  destruct (assemble log) as [[| c cs] |]; try discriminate.
  intros [= <-]. repeat split; discriminate.
Qed.

(** The last assembled turn is the user's and ends with the text sent. *)
Lemma assemble_ends_with_sent msgs messageText req :
  assemble (msgs ++ [mkMessage user messageText None]) = Some req ->
  exists before lastTurn pre,
    req = before ++ [lastTurn] /\ Gen.role lastTurn = user /\
    firstText lastTurn = pre ++ messageText.
Proof.
  unfold assemble.
  destruct (mergeContents _) as [merged |] eqn:M; [| discriminate].
  intros [= <-].
  unfold history in M. change 20 with (S 19) in M.
  rewrite sliceLast_snoc in M. unfold contents in M.
  rewrite filter_app, map_app in M. cbn [filter silent isSilent negb map] in M.
  unfold mergeContents in M. rewrite reduce_snoc in M.
  destruct (reduce mergeStep _ []) as [acc |]; [| discriminate].
  apply mergeStep_last_text in M as (before & lastMsg & pre & -> & R & T).
  cbn [toContent Gen.role sender] in R.
  change (firstText (toContent (mkMessage user messageText None)))
    with messageText in T.
  destruct before as [| b before].
  - exists [], lastMsg, pre. simpl. now rewrite R.
  - simpl. destruct (Gen.role b).
    + now exists (b :: before), lastMsg, pre.
    + now exists before, lastMsg, pre.
Qed.

(** X2. Whenever [handleSendMessage] calls the remote service, the turns
    it sends are what the assembly makes of the snapshot's log followed
    by the new user message, and they are well formed for the service:
    not empty, at most twenty, one part each, no two neighbours with the
    same role, the first turn by the user, and the last turn by the user
    with a text that ends with the text just sent. *)
Theorem issued_request_is_well_formed
    (snap : State) (arg : option jsstring) (req : Request) :
  snd (handleSendMessage snap arg) = Some req ->
  let messageText := match arg with Some t => t | None => input snap end in
  assemble (messages snap ++ [mkMessage user messageText None]) = Some req /\
  req <> [] /\
  List.length req <= 20 /\
  Forall (fun c => onePart c = true) req /\
  alternating req = true /\
  (exists first rest, req = first :: rest /\ Gen.role first = user) /\
  (exists before lastTurn pre,
     req = before ++ [lastTurn] /\ Gen.role lastTurn = user /\
     firstText lastTurn = pre ++ messageText).
Proof.
  intros H messageText. rewrite snd_handleSendMessage in H. fold messageText in H.
  destruct (negb _ || isLoading snap); [discriminate |].
  apply requestPhase_call in H as (_ & Ha & Hne).
  split; [exact Ha |]. split; [exact Hne |].
  split; [now apply length_assemble in Ha |].
  pose proof Ha as Hb. rewrite assemble_total in Hb. injection Hb as Hb.
  destruct (dropLeadingModel_alternating _
              (alternating_groupRuns (contents (history
                 (messages snap ++ [mkMessage user messageText None])))))
    as [Halt Hfirst].
  rewrite Hb in Halt, Hfirst.
  split.
  { rewrite <- Hb. apply Forall_forall. intros c Hc.
    apply in_dropLeadingModel in Hc.
    pose proof (onePart_joinGroup (groupRuns (contents (history
                 (messages snap ++ [mkMessage user messageText None]))))) as F.
    rewrite Forall_forall in F. now apply F. }
  split; [exact Halt |]. split.
  - destruct req as [| first rest]; [now destruct Hne |].
    now exists first, rest.
  - now apply assemble_ends_with_sent with (msgs := messages snap).
Qed.

Lemma issued_request_is_well_formed_witness :
  let snap :=
    mkState (INITIAL_MESSAGES ++
             [mkMessage user (JS.lit "I'm feeling sad.") (Some true);
              mkMessage user (JS.lit "first") None])
      (JS.lit "second") false [] false None [] [] false (Some Client) in
  let req := [turn user (JS.lit "first" ++ [10%N] ++ JS.lit "second")] in
  snd (handleSendMessage snap None) = Some req /\
  alternating req = true /\ List.length req <= 20.
Proof.
  intros snap req.
  assert (H : snd (handleSendMessage snap None) = Some req) by reflexivity.
  split; [exact H |].
  destruct (issued_request_is_well_formed snap None req H)
    as (_ & _ & Hlen & _ & Halt & _).
  split; [exact Halt | exact Hlen].
Defined.

End Requests.

(* ================================================================== *)
(** * Sends, replies and the loading flag *)
(* ================================================================== *)

Section Flow.

Import Dashboard Turns.

Lemma applyAll_keeps (A : Type) (f : State -> A) us :
  Forall (fun u : Update => forall s, f (u s) = f s) us ->
  forall s, f (applyAll us s) = f s.
Proof.
  induction us as [| u us IH] using rev_ind; intros H s; [reflexivity |].
  apply Forall_app in H as [Hus Hu]. inversion Hu as [| ? ? Hu' _]; subst.
  rewrite applyAll_app. cbn [applyAll fold_left].
  rewrite Hu'. now apply IH.
Qed.

Ltac keeps_all :=
  repeat (apply Forall_cons; [intros ?; reflexivity |]); apply Forall_nil.

Lemma keeps_handleSendMessage (A : Type) (f : State -> A) snap arg :
  (forall g s, f (setMessages g s) = f s) ->
  (forall g s, f (setInput g s) = f s) ->
  (forall b s, f (setIsLoading b s) = f s) ->
  (forall e s, f (setError e s) = f s) ->
  forall s, f (applyAll (fst (handleSendMessage snap arg)) s) = f s.
Proof.
  intros H1 H2 H3 H4. apply applyAll_keeps.
  rewrite fst_handleSendMessage.
  destruct (negb _ || isLoading snap); [constructor |].
  repeat (apply Forall_app; split).
  - repeat constructor. intros s. apply H1.
  - destruct (JS.eqb _ _); repeat constructor. intros s. apply H2.
  - repeat constructor; intros s; [apply H3 | apply H4].
  - destruct (requestPhase _ _); repeat constructor; intros s;
      first [apply H1 | apply H3].
Qed.

(** With a client the [try] block always reaches the remote call. *)
Lemma requestPhase_awaits ai msgs messageText :
  exists req,
    requestPhase (Some ai) (msgs ++ [mkMessage user messageText None]) =
    Awaiting req.
Proof.
  pose proof (send_always_has_a_turn (Some ai) msgs messageText) as H.
  destruct (requestPhase _ _) as [| | req] eqn:E.
  - unfold requestPhase in E. rewrite assemble_total in E.
    now destruct (dropLeadingModel _).
  - now destruct H.
  - now exists req.
Qed.

(** The loading flag once the synchronous part of a send has run. *)
Lemma isLoading_after_send snap arg s :
  let messageText := match arg with Some t => t | None => input snap end in
  isLoading (applyAll (fst (handleSendMessage snap arg)) s) =
  if negb (JS.truthy (JS.trim messageText)) || isLoading snap then isLoading s
  else match snd (handleSendMessage snap arg) with
       | Some _ => true
       | None => false
       end.
Proof.
  intros messageText.
  rewrite fst_handleSendMessage, snd_handleSendMessage. fold messageText.
  destruct (negb _ || isLoading snap); [reflexivity |].
  destruct (requestPhase _ _); destruct (JS.eqb _ _); reflexivity.
Qed.

Lemma snd_handleMoodSelection snap m now :
  snd (handleMoodSelection snap m now) =
  snd (handleSendMessage snap (Some (moodPrompt m))).
Proof.
  unfold handleMoodSelection. now destruct (handleSendMessage _ _).
Qed.


(** X3. A send from a dashboard that has a client, is not loading and
    has a non-blank draft appends the draft as a user message, empties
    the draft, clears the error, sets the loading flag and issues one
    call.  When that call resolves, the reply is appended as a model
    message and the loading flag is cleared: together the log gains the
    user message followed by the reply and nothing else. *)
Theorem send_then_reply (w : Instance) (ai : GoogleGenAI) :
  aiRef (st w) = Some ai ->
  isLoading (st w) = false ->
  blank (input (st w)) = false ->
  settled w <= List.length (issued w) ->
  exists req w1,
    step w Send = Some w1 /\
    messages (st w1) = messages (st w) ++ [mkMessage user (input (st w)) None] /\
    input (st w1) = [] /\ error (st w1) = [] /\ isLoading (st w1) = true /\
    issued w1 = issued w ++ [req] /\
    forall reply, exists w2,
      step w1 (Settle (Resolved reply)) = Some w2 /\
      messages (st w2) =
        messages (st w) ++ [mkMessage user (input (st w)) None;
                            mkMessage model reply None] /\
      isLoading (st w2) = false /\ input (st w2) = [] /\
      issued w2 = issued w1.
Proof.
  intros Hai Hload Hblank Hsettled.
  assert (Ht : JS.truthy (JS.trim (input (st w))) = true).
  { destruct (JS.truthy _) eqn:T; [reflexivity |].
    apply trim_falsy_iff in T. congruence. }
  destruct (requestPhase_awaits ai (messages (st w)) (input (st w)))
    as [req Hreq].
  assert (E : handleSendMessage (st w) None =
              ([ setMessages (fun prev => prev ++ [mkMessage user (input (st w)) None]);
                 setInput (fun _ => []); setIsLoading true; setError [] ],
               Some req)).
  { unfold handleSendMessage. rewrite Ht, Hload, Hai, Hreq.
    cbn [negb orb afterTry]. unfold JS.eqb.
    destruct (list_eq_dec N.eq_dec (input (st w)) (input (st w)));
      [reflexivity | congruence]. }
  exists req, (commit w (handleSendMessage (st w) None)).
  cbn [step]. rewrite E. split; [reflexivity |].
  repeat (split; [reflexivity |]).
  intros reply. cbn [step commit fst snd issued settled].
  rewrite length_app. cbn [List.length].
  replace (settled w <? List.length (issued w) + 1) with true
    by (symmetry; apply Nat.ltb_lt; lia).
  eexists. split; [reflexivity |].
  cbn -[JS.lit]. rewrite <- app_assoc. repeat split.
Qed.

Lemma send_then_reply_witness :
  let w := mkInstance
             (mkState INITIAL_MESSAGES (JS.lit "I feel stuck.") false [] false
                None [] [] false (Some Client)) [] 0 in
  exists req w1,
    step w Send = Some w1 /\
    messages (st w1) =
      INITIAL_MESSAGES ++ [mkMessage user (JS.lit "I feel stuck.") None] /\
    isLoading (st w1) = true /\
    issued w1 = [req].
Proof.
  intro w.
  destruct (send_then_reply w Client eq_refl eq_refl eq_refl (le_n 0))
    as (req & w1 & H1 & H2 & _ & _ & H3 & H4 & _).
  exists req, w1. repeat split; assumption.
Defined.

(** X4. The first message of a chat: when the log is just the seed
    greeting, the request consists of the single user turn with the text
    sent; the greeting is not part of it. *)
Theorem first_request_is_the_user_turn
    (snap : State) (arg : option jsstring) (req : Request) :
  messages snap = INITIAL_MESSAGES ->
  snd (handleSendMessage snap arg) = Some req ->
  req = [turn user (match arg with Some t => t | None => input snap end)].
Proof.
  intros Hm H. rewrite snd_handleSendMessage in H.
  destruct (negb _ || isLoading snap); [discriminate |].
  apply requestPhase_call in H as (_ & Ha & _).
  rewrite Hm in Ha. now injection Ha as <-.
Qed.

Lemma first_request_is_the_user_turn_witness :
  let snap := mkState INITIAL_MESSAGES (JS.lit "I feel stuck.") false []
                false None [] [] false (Some Client) in
  messages snap = INITIAL_MESSAGES /\
  snd (handleSendMessage snap None) = Some [turn user (JS.lit "I feel stuck.")].
Proof.
  intro snap. split; [reflexivity |].
  assert (H : snd (handleSendMessage snap None) =
              Some [turn user (JS.lit "I feel stuck.")]) by reflexivity.
  now rewrite (first_request_is_the_user_turn snap None _ eq_refl H) in H.
Defined.






Lemma step_aiRef w e w' :
  step w e = Some w' -> aiRef (st w') = aiRef (st w).
Proof.
  destruct e; cbn [step]; intros H;
    try (injection H as <-; reflexivity).
  - injection H as <-. cbn [commit st].
    now apply keeps_handleSendMessage.
  - injection H as <-. cbn [commit st].
    rewrite fst_handleMoodSelection, applyAll_app.
    now rewrite keeps_handleSendMessage.
  - destruct (settled w <? List.length (issued w)); [| discriminate].
    injection H as <-. now destruct r.
Qed.

Lemma noClient_step w e w' :
  step w e = Some w' ->
  aiRef (st w) = None /\ issued w = [] /\ settled w = 0 /\
  isLoading (st w) = false ->
  aiRef (st w') = None /\ issued w' = [] /\ settled w' = 0 /\
  isLoading (st w') = false.
Proof.
  intros H (Hai & Hi & Hs & Hl).
  split; [now rewrite (step_aiRef w e w' H) |].
  assert (Hsnd : forall arg, snd (handleSendMessage (st w) arg) = None).
  { intros arg. rewrite snd_handleSendMessage, Hai.
    now destruct (negb _ || _). }
  assert (Hfst : forall arg s,
            isLoading s = false ->
            isLoading (applyAll (fst (handleSendMessage (st w) arg)) s) = false).
  { intros arg s Hs'. rewrite isLoading_after_send, Hsnd.
    now destruct (negb _ || _). }
  destruct e; cbn [step] in H;
    try (injection H as <-; now repeat split).
  - injection H as <-. cbn [commit st issued settled].
    rewrite Hsnd. repeat split; auto.
  - injection H as <-. cbn [commit st issued settled].
    rewrite snd_handleMoodSelection, Hsnd.
    rewrite fst_handleMoodSelection, applyAll_app.
    repeat split; auto.
  - rewrite Hi, Hs in H. discriminate.
Qed.

Lemma noClient_run es : forall w w',
  run w es = Some w' ->
  aiRef (st w) = None /\ issued w = [] /\ settled w = 0 /\
  isLoading (st w) = false ->
  aiRef (st w') = None /\ issued w' = [] /\ settled w' = 0 /\
  isLoading (st w') = false.
Proof.
  induction es as [| e es IH]; intros w w' H I; cbn [run] in H.
  - now injection H as <-.
  - destruct (step w e) as [w1 |] eqn:E; [| discriminate].
    apply (IH w1 w' H). now apply (noClient_step w e w1).
Qed.

(** A send without a client that is not ignored. *)
Lemma send_without_client w arg :
  aiRef (st w) = None ->
  blank (match arg with Some t => t | None => input (st w) end) = false ->
  isLoading (st w) = false ->
  handleSendMessage (st w) arg =
  ([setMessages
      (fun prev =>
         prev ++ [mkMessage user
                    (match arg with Some t => t | None => input (st w) end)
                    None])] ++
   (if JS.eqb (match arg with Some t => t | None => input (st w) end)
         (input (st w))
    then [setInput (fun _ => [])] else []) ++
   [setIsLoading true; setError []] ++ catchFinally, None).
Proof.
  intros Hai Hblank Hload.
  assert (Ht : JS.truthy
                 (JS.trim (match arg with Some t => t | None => input (st w) end))
               = true).
  { destruct (JS.truthy _) eqn:T; [reflexivity |].
    apply trim_falsy_iff in T. congruence. }
  unfold handleSendMessage. rewrite Ht, Hload, Hai.
  cbn [negb orb requestPhase afterTry]. now rewrite <- !app_assoc.
Qed.

(** X6. When the client could not be created at mount, no sequence of
    events ever issues a remote call, so none can settle and the
    loading flag is clear between events; a send that is not ignored
    appends the user message and the fallback message. *)
Theorem no_client_no_call
    (randomIndex : nat) (es : list Event) (w : Instance) :
  run (mount false randomIndex) es = Some w ->
  aiRef (st w) = None /\ issued w = [] /\ settled w = 0 /\
  isLoading (st w) = false /\
  forall arg,
    blank (match arg with Some t => t | None => input (st w) end) = false ->
    let w' := commit w (handleSendMessage (st w) arg) in
    messages (st w') =
      messages (st w) ++
      [mkMessage user (match arg with Some t => t | None => input (st w) end)
         None; errorMessage] /\
    isLoading (st w') = false /\
    issued w' = [].
Proof.
  intros H.
  destruct (noClient_run es (mount false randomIndex) w H)
    as (Hai & Hi & Hs & Hl); [now repeat split |].
  repeat (split; [assumption |]).
  intros arg Hblank w'. subst w'.
  rewrite (send_without_client w arg Hai Hblank Hl).
  unfold commit. cbn [fst snd st issued].
  split; [| split; [| exact Hi]].
  - destruct (JS.eqb _ _); cbn -[JS.lit]; now rewrite <- app_assoc.
  - destruct (JS.eqb _ _); reflexivity.
Qed.

Lemma no_client_no_call_witness :
  let es := [ChangeInput (JS.lit "hi"); Send; SelectMood sad 1%Z; NewChat;
             ChangeInput (JS.lit "again"); Send] in
  exists w,
    run (mount false 0) es = Some w /\
    issued w = [] /\ isLoading (st w) = false.
Proof.
  intro es.
  destruct (run (mount false 0) es) as [w |] eqn:E;
    [| vm_compute in E; discriminate].
  exists w. split; [reflexivity |].
  destruct (no_client_no_call 0 es w E) as (_ & Hi & _ & Hl & _).
  split; [exact Hi | exact Hl].
Defined.

(** X7. The new-chat reset does not cancel a pending call: it clears the
    loading flag while the call stays pending, so the guard of the next
    send no longer holds it back, and when the call settles its reply,
    or the fallback message, lands on the fresh log right after the
    greeting. *)
Theorem reply_lands_after_reset (w : Instance) (r : Settled) :
  settled w < List.length (issued w) ->
  exists w1 w2,
    step w NewChat = Some w1 /\
    isLoading (st w1) = false /\ pending w1 = pending w /\
    step w1 (Settle r) = Some w2 /\
    messages (st w2) =
      INITIAL_MESSAGES ++
      [match r with
       | Resolved reply => mkMessage model reply None
       | Rejected => errorMessage
       end] /\
    isLoading (st w2) = false.
Proof.
  intros H. apply Nat.ltb_lt in H.
  exists (commit w (handleNewChat, None)). eexists.
  split; [reflexivity |]. split; [reflexivity |]. split; [reflexivity |].
  cbn [step commit issued settled snd]. rewrite H.
  split; [reflexivity |]. now destruct r.
Qed.

Lemma reply_lands_after_reset_witness :
  exists w w1 w2,
    run (mount true 0) [ChangeInput (JS.lit "hi"); Send] = Some w /\
    settled w < List.length (issued w) /\
    step w NewChat = Some w1 /\
    step w1 (Settle (Resolved (JS.lit "hello"))) = Some w2 /\
    messages (st w2) =
      INITIAL_MESSAGES ++ [mkMessage model (JS.lit "hello") None].
Proof.
  destruct (run (mount true 0) [ChangeInput (JS.lit "hi"); Send])
    as [w |] eqn:E; [| vm_compute in E; discriminate].
  assert (H : settled w < List.length (issued w)).
  { vm_compute in E. injection E as <-. vm_compute. lia. }
  destruct (reply_lands_after_reset w (Resolved (JS.lit "hello")) H)
    as (w1 & w2 & H1 & _ & _ & H2 & H3 & _).
  exists w, w1, w2. repeat split; assumption.
Defined.



End Flow.

(* ================================================================== *)
(** * The draft, the widgets and the chat window *)
(* ================================================================== *)

Section Widgets.

Import Dashboard Turns Render.

Lemma blank_app a b : blank (a ++ b) = blank a && blank b.
Proof. unfold blank. apply forallb_app. Qed.

(** X9. The send button is disabled exactly when [handleSendMessage],
    called as the form calls it, would return at once; pressing Enter
    reaches the same guard, so the button and the handler never
    disagree. *)
Theorem send_button_matches_guard (s : State) :
  sendDisabled s = true <-> handleSendMessage s None = ([], None).
Proof.
  unfold sendDisabled. split.
  - intros H. unfold handleSendMessage. now rewrite H.
  - intros H. apply (f_equal fst) in H. rewrite fst_handleSendMessage in H.
    destruct (negb _ || isLoading s); [reflexivity | discriminate].
Qed.

(** X10. Writing in the journal only extends the draft: the old draft
    is kept as a prefix, followed by two line feeds when it was not
    empty, then the quoted prompt.  The log, the calls and the loading
    flag are untouched, and the new draft is never blank, so the send
    button is enabled afterwards unless a call is loading. *)
Theorem write_in_journal_extends_draft (w : Instance) :
  let template :=
    JS.lit "Regarding the prompt " ++ [34%N] ++ journalPrompt (st w) ++
    [34%N] ++ JS.lit ": " in
  exists w',
    step w WriteInJournal = Some w' /\
    input (st w') =
      input (st w) ++
      (match input (st w) with [] => [] | _ :: _ => [10%N; 10%N] end) ++
      template /\
    messages (st w') = messages (st w) /\
    issued w' = issued w /\
    isLoading (st w') = isLoading (st w) /\
    blank (input (st w')) = false /\
    sendDisabled (st w') = isLoading (st w).
Proof.
  intros template. eexists. split; [reflexivity |].
  cbn [commit fst snd st issued handleWriteInJournal applyAll fold_left
       setInput input messages isLoading].
  assert (B : blank
                (input (st w) ++
                 (if JS.truthy (input (st w)) then [10%N; 10%N] else []) ++
                 JS.lit "Regarding the prompt " ++
                 [34%N] ++ journalPrompt (st w) ++ [34%N] ++ JS.lit ": ")
              = false).
  { rewrite !blank_app. cbn. now rewrite !andb_false_r. }
  split; [| split; [reflexivity | split; [reflexivity | split; [reflexivity |]]]].
  - unfold template. now destruct (input (st w)).
  - split; [exact B |]. unfold sendDisabled. cbn [input isLoading].
    destruct (JS.truthy (JS.trim _)) eqn:T; [reflexivity |].
    apply trim_falsy_iff in T.
    pose proof (eq_trans (eq_sym T) B) as C. discriminate C.
Qed.

Lemma sliceLast_nil_iff (A : Type) (k : nat) (l : list A) :
  JS.sliceLast (S k) l = [] <-> l = [].
Proof.
  split; [| now intros ->].
  intros H. apply (f_equal (@List.length A)) in H.
  rewrite sliceLast_length in H. destruct l; [reflexivity |].
  simpl List.length in H. lia.
Qed.

(** X11. The mood widget is shown exactly when a mood has been selected
    since the dashboard was mounted: no event hides it again, the
    new-chat reset included. *)
Theorem mood_widget_shown_after_first_selection
    (clientOk : bool) (randomIndex : nat) (es : list Event) (w : Instance) :
  run (mount clientOk randomIndex) es = Some w ->
  (showMoodWidget (st w) = true <-> selections es <> []).
Proof.
  intros H.
  assert (E : moodHistory (st w) = JS.sliceLast 7 (selections es)).
  { apply (moodHistory_run es (mount clientOk randomIndex) w []);
      [now destruct clientOk | exact H]. }
  unfold showMoodWidget. rewrite E.
  pose proof (sliceLast_nil_iff MoodEntry 6 (selections es)) as N.
  destruct (JS.sliceLast 7 (selections es)) eqn:S.
  - split; [discriminate |]. intros Hne. destruct Hne. now apply N.
  - split; [| reflexivity]. intros _ Hs. rewrite Hs in S. discriminate.
Qed.

Lemma mood_widget_shown_after_first_selection_witness :
  let es := [SelectMood happy 1%Z; NewChat] in
  exists w,
    run (mount true 0) es = Some w /\
    showMoodWidget (st w) = true /\ messages (st w) = INITIAL_MESSAGES.
Proof.
  intro es.
  destruct (run (mount true 0) es) as [w |] eqn:E;
    [| vm_compute in E; discriminate].
  exists w. split; [reflexivity |]. split.
  - apply (mood_widget_shown_after_first_selection true 0 es w E). discriminate.
  - vm_compute in E. now injection E as <-.
Defined.

Lemma replaceNewlines_app a b :
  replaceNewlines (a ++ b) = replaceNewlines a ++ replaceNewlines b.
Proof.
  induction a as [| c a IH]; [reflexivity |].
  simpl. destruct (N.eqb c 10); rewrite IH; reflexivity.
Qed.

(** X12. The markup of a bubble has no line feed left: each one has
    become the six characters of the break tag, so the markup is longer
    by five per line feed.  Every other character is passed through as
    it is, markup characters included: a text without line feed is its
    own markup.  The replacement distributes over concatenation. *)
Theorem newlines_become_breaks (t : jsstring) :
  ~ In 10%N (replaceNewlines t) /\
  List.length (replaceNewlines t) =
    List.length t + 5 * count_occ N.eq_dec t 10%N /\
  (~ In 10%N t -> replaceNewlines t = t) /\
  (forall u, replaceNewlines (t ++ u) = replaceNewlines t ++ replaceNewlines u).
Proof.
  split; [| split; [| split]].
  - induction t as [| c t IH]; [auto |].
    simpl. destruct (N.eqb c 10) eqn:E.
    + intros H. repeat (destruct H as [H | H]; [discriminate |]).
      now apply IH.
    + apply N.eqb_neq in E. intros [H | H]; [congruence | now apply IH].
  - induction t as [| c t IH]; [reflexivity |].
    simpl replaceNewlines. simpl count_occ.
    destruct (N.eqb c 10) eqn:E.
    + apply N.eqb_eq in E. subst c.
      destruct (N.eq_dec 10 10); [| congruence].
      cbn [List.length]. rewrite IH. lia.
    + apply N.eqb_neq in E.
      destruct (N.eq_dec c 10); [congruence |]. simpl. rewrite IH. lia.
  - induction t as [| c t IH]; [reflexivity |].
    intros H. simpl. destruct (N.eqb c 10) eqn:E.
    + apply N.eqb_eq in E. subst c. destruct H. now left.
    + f_equal. apply IH. intros H'. apply H. now right.
  - intros u. apply replaceNewlines_app.
Qed.

Lemma newlines_become_breaks_witness :
  let t := JS.lit "<b>bold</b>" in
  ~ In 10%N t /\ replaceNewlines t = t.
Proof.
  intro t.
  assert (H : ~ In 10%N t).
  { vm_compute. intros H. repeat (destruct H as [H | H]; [discriminate |]).
    exact H. }
  split; [exact H |].
  exact (proj1 (proj2 (proj2 (newlines_become_breaks t))) H).
Defined.

Lemma in_renderFrom msgs : forall index b,
  In (Some b) (renderFrom index msgs) <->
  exists msg,
    index <= key b /\
    nth_error msgs (key b - index) = Some msg /\ silent msg = false /\
    className b = sender msg /\ html b = replaceNewlines (text msg).
Proof.
  induction msgs as [| m msgs IH]; intros index b.
  - simpl. split; [tauto |]. intros (msg & _ & H & _).
    now destruct (key b - index).
  - cbn [renderFrom In]. rewrite IH. split.
    + intros [H | (msg & Hle & Hn & Hs)].
      * destruct (silent m) eqn:S; [discriminate |]. simpl in H.
        injection H as <-. exists m. cbn [key className html].
        rewrite Nat.sub_diag. now repeat split.
      * exists msg. split; [lia |].
        replace (key b - index) with (S (key b - S index)) by lia.
        now split.
    + intros (msg & Hle & Hn & Hs & Hc & Hh).
      destruct (Nat.eq_dec (key b) index) as [E | E].
      * left. rewrite E, Nat.sub_diag in Hn. simpl in Hn.
        injection Hn as ->. rewrite Hs. simpl.
        destruct b as [k c h]. simpl in *. congruence.
      * right. exists msg. split; [lia |].
        replace (key b - index) with (S (key b - S index)) in Hn by lia.
        now repeat split.
Qed.

(** X13. The chat window shows exactly the entries of the log that are
    not silent: a bubble is rendered if and only if the entry at the
    index given by its key is not silent, and then it carries the
    sender of that entry and its text with line feeds replaced.  One
    slot is rendered per log entry, so keys are positions in the log. *)
Theorem chat_window_shows_non_silent_entries (msgs : list Message) :
  List.length (renderMessages msgs) = List.length msgs /\
  (forall b,
     In (Some b) (renderMessages msgs) <->
     exists msg,
       nth_error msgs (key b) = Some msg /\ silent msg = false /\
       className b = sender msg /\ html b = replaceNewlines (text msg)) /\
  (forall i msg,
     nth_error msgs i = Some msg -> silent msg = true ->
     nth_error (renderMessages msgs) i = Some None).
Proof.
  split; [| split].
  - unfold renderMessages. generalize 0.
    induction msgs as [| m msgs IH]; intros n; [reflexivity |].
    simpl. now rewrite IH.
  - intros b. unfold renderMessages. rewrite in_renderFrom.
    rewrite Nat.sub_0_r. split.
    + intros (msg & _ & H). now exists msg.
    + intros (msg & H). exists msg. split; [lia | exact H].
  - unfold renderMessages. generalize 0.
    induction msgs as [| m msgs IH]; intros n i msg Hn Hs.
    + now destruct i.
    + destruct i as [| i]; simpl in *.
      * injection Hn as ->. now rewrite Hs.
      * now apply (IH (S n) i msg).
Qed.

Lemma chat_window_shows_non_silent_entries_witness :
  let msgs := INITIAL_MESSAGES ++
              [mkMessage user (JS.lit "I'm feeling sad.") (Some true);
               mkMessage user (JS.lit "Hi") None] in
  nth_error msgs 1 = Some (mkMessage user (JS.lit "I'm feeling sad.") (Some true)) /\
  nth_error (renderMessages msgs) 1 = Some None /\
  In (Some (mkBubble 2 user (JS.lit "Hi"))) (renderMessages msgs).
Proof.
  intro msgs.
  destruct (chat_window_shows_non_silent_entries msgs) as (_ & H1 & H2).
  split; [reflexivity |]. split.
  - apply (H2 1 (mkMessage user (JS.lit "I'm feeling sad.") (Some true)));
      reflexivity.
  - apply H1. exists (mkMessage user (JS.lit "Hi") None). now repeat split.
Defined.




End Widgets.

(* ================================================================== *)
(** * The session *)
(* ================================================================== *)

Section Session.

Import Dashboard.

Lemma validEmail_length e : validEmail e -> 5 <= List.length e.
Proof.
  intros (pre & a & b & c & post & -> & [Ha _] & [Hb _] & [Hc _]).
  rewrite !length_app. simpl.
  destruct a; [now destruct Ha |]. destruct b; [now destruct Hb |].
  destruct c; [now destruct Hc |]. simpl. lia.
Qed.

Lemma validEmail_surrounded e pre post :
  validEmail e -> validEmail (pre ++ e ++ post).
Proof.
  intros (pre' & a & b & c & post' & -> & Ha & Hb & Hc).
  exists (pre ++ pre'), a, b, c, (post' ++ post).
  split; [| auto]. now rewrite <- !app_assoc.
Qed.

(** X15. The pattern of the login form is not anchored.  An accepted
    email has at least five characters, among them an at sign and a
    dot; and once an address is accepted, so is any string that
    contains it, blanks included: with a non-empty password the user is
    logged in under that whole string. *)
Theorem login_accepts_any_text_around_an_address
    (a : App.State) (e pw err pre post : jsstring) :
  RegExp.test LoginScreen.EMAIL_PATTERN e = true ->
  pw <> [] ->
  5 <= List.length e /\ In 64%N e /\ In 46%N e /\
  RegExp.test LoginScreen.EMAIL_PATTERN (pre ++ e ++ post) = true /\
  App.session
    (fst (App.submit a (LoginScreen.mkState (pre ++ e ++ post) pw err))) =
  App.LoggedIn (pre ++ e ++ post).
Proof.
  intros He Hpw. apply test_EMAIL_PATTERN in He.
  pose proof (validEmail_length e He) as Hlen.
  pose proof (validEmail_surrounded e pre post He) as Hs.
  pose proof (validEmail_length _ Hs) as Hlen'.
  apply test_EMAIL_PATTERN in Hs.
  split; [exact Hlen |]. split; [| split; [| split; [exact Hs |]]].
  - destruct He as (p0 & x & y & z & q0 & -> & _).
    apply in_or_app. right. apply in_or_app. right. now left.
  - destruct He as (p0 & x & y & z & q0 & -> & _).
    do 4 (apply in_or_app; right). now left.
  - unfold App.submit.
    rewrite handleSubmit_accepts; [reflexivity | | | exact Hs];
      cbn [LoginScreen.email LoginScreen.password]; apply truthy_iff;
      [| exact Hpw].
    intros E. rewrite E in Hlen'. simpl in Hlen'. lia.
Qed.

Lemma login_accepts_any_text_around_an_address_witness :
  let e := JS.lit "a@b.c" in
  let whole := JS.lit "to: " ++ e ++ JS.lit " (home)" in
  RegExp.test LoginScreen.EMAIL_PATTERN e = true /\
  App.session
    (fst (App.submit App.initial (LoginScreen.mkState whole (JS.lit "x") []))) =
  App.LoggedIn whole.
Proof.
  intros e whole. split; [reflexivity |].
  apply (login_accepts_any_text_around_an_address App.initial e (JS.lit "x") []
           (JS.lit "to: ") (JS.lit " (home)") eq_refl).
  discriminate.
Defined.

Lemma pageOk_step p e p' :
  Page.step p e = Some p' -> pageOk p -> pageOk p'.
Proof.
  unfold Page.step, pageOk. destruct p as [a v]. cbn [Page.app Page.view].
  destruct e, v as [f | d]; try discriminate.
  - intros [= <-]. auto.
  - intros [= <-]. auto.
  - intros H [Hauth Hemail]. unfold App.submit in H.
    destruct (JS.truthy (LoginScreen.email f) &&
              JS.truthy (LoginScreen.password f) &&
              RegExp.test LoginScreen.EMAIL_PATTERN (LoginScreen.email f))
      eqn:E.
    + apply andb_true_iff in E as [E E3]. apply andb_true_iff in E as [E1 E2].
      rewrite (handleSubmit_accepts f E1 E2 E3) in H.
      cbn in H. injection H as <-. cbn.
      split; [reflexivity |]. split; [now apply test_EMAIL_PATTERN |].
      exists []. now destruct clientOk.
    + destruct (handleSubmit_rejects f E) as (msg & _ & Hs).
      rewrite Hs in H. rewrite Hauth in H. injection H as <-. cbn. auto.
  - destruct (isDropdownOpen (st d)); [| discriminate].
    intros [= <-] _. cbn. auto.
  - destruct (step d e) as [d' |] eqn:E; [| discriminate].
    intros [= <-] (Hauth & Hemail & tail & Ht). cbn [Page.app Page.view].
    split; [exact Hauth |]. split; [exact Hemail |].
    destruct (step_effect d e d' E) as [L _].
    destruct e;
      first [ now (exists []; rewrite L, app_nil_r)
            | destruct L as [added L]; exists (tail ++ added);
              rewrite L, Ht; now rewrite <- app_assoc ].
Qed.

(** X16. Whatever sequence of events the page has seen since it was
    loaded: while the login form is shown nobody is authenticated and
    no email is held; while the dashboard is shown the user is
    authenticated under an email that the login form accepted, and the
    log of that dashboard starts with the seed greeting. *)
Theorem session_invariant (es : list Page.Event) (p : Page.State) :
  Page.run Page.initial es = Some p ->
  match Page.view p with
  | Page.LoginView _ =>
      App.session (Page.app p) = App.LoggedOut /\
      App.userEmail (Page.app p) = []
  | Page.DashboardView d =>
      App.session (Page.app p) = App.LoggedIn (App.userEmail (Page.app p)) /\
      validEmail (App.userEmail (Page.app p)) /\
      exists tail, messages (st d) = INITIAL_MESSAGES ++ tail
  end.
Proof.
  intros H.
  assert (I : pageOk p).
  { assert (G : forall es0 p0, pageOk p0 -> Page.run p0 es0 = Some p -> pageOk p).
    { induction es0 as [| e es0 IH]; intros p0 I0 H0; cbn [Page.run] in H0.
      - now injection H0 as <-.
      - destruct (Page.step p0 e) as [p1 |] eqn:E; [| discriminate].
        apply (IH p1); [now apply (pageOk_step p0 e p1) | exact H0]. }
    apply (G es Page.initial); [now split | exact H]. }
  unfold pageOk in I. unfold App.session.
  destruct (Page.view p) as [f | d].
  - destruct I as [-> I]. now split.
  - destruct I as (-> & I). now split.
Qed.

Lemma session_invariant_witness :
  let es := [Page.ChangeEmail (JS.lit "amina@example.org");
             Page.ChangePassword (JS.lit "pw"); Page.Submit true 1;
             Page.Dash (ChangeInput (JS.lit "Hello"));
             Page.Dash Send; Page.Dash ToggleDropdown] in
  exists p d,
    Page.run Page.initial es = Some p /\
    Page.view p = Page.DashboardView d /\
    App.session (Page.app p) = App.LoggedIn (JS.lit "amina@example.org") /\
    exists tail, messages (st d) = INITIAL_MESSAGES ++ tail.
Proof.
  intro es.
  destruct (Page.run Page.initial es) as [p |] eqn:E;
    [| vm_compute in E; discriminate].
  pose proof (session_invariant es p E) as H.
  destruct (Page.view p) as [f | d] eqn:V;
    [vm_compute in E; injection E as <-; discriminate V |].
  destruct H as (H1 & _ & H3).
  exists p, d. split; [reflexivity |]. split; [exact V |].
  split; [| exact H3].
  rewrite H1. vm_compute in E. now injection E as <-.
Defined.

End Session.

(* ================================================================== *)
(** * Ordinary conversations and the journal prompt *)
(* ================================================================== *)

Section Ordinary.

Import Dashboard Turns.

(** X17. When the visible entries of the window already alternate
    between the two roles, as they do in a conversation of single sends
    and replies, the merge changes nothing: the request is one turn per
    visible entry, with the entry's own text, minus a leading model
    turn. *)
Theorem alternating_log_is_sent_verbatim (log : list Message) :
  alternating (contents (history log)) = true ->
  assemble log = Some (dropLeadingModel (contents (history log))).
Proof.
  intros H. unfold assemble.
  now rewrite (mergeContents_alternating _ (onePart_contents _) H).
Qed.

Lemma alternating_log_is_sent_verbatim_witness :
  let log := INITIAL_MESSAGES ++
             [mkMessage user (JS.lit "one") None;
              mkMessage model (JS.lit "two") None;
              mkMessage user (JS.lit "I'm feeling sad.") (Some true);
              mkMessage user (JS.lit "three") None] in
  alternating (contents (history log)) = true /\
  assemble log =
    Some [turn user (JS.lit "one"); turn model (JS.lit "two");
          turn user (JS.lit "three")].
Proof.
  intro log. split; [reflexivity |].
  now rewrite (alternating_log_is_sent_verbatim log eq_refl).
Defined.

Lemma step_journalPrompt w e w' :
  step w e = Some w' ->
  journalPrompt (st w') =
  match e with
  | NewPrompt randomIndex => nth randomIndex JOURNAL_PROMPTS []
  | _ => journalPrompt (st w)
  end.
Proof.
  destruct e; cbn [step]; intros H;
    try (injection H as <-; reflexivity).
  - injection H as <-. cbn [commit st].
    now apply keeps_handleSendMessage.
  - injection H as <-. cbn [commit st].
    rewrite fst_handleMoodSelection, applyAll_app.
    now rewrite keeps_handleSendMessage.
  - destruct (settled w <? List.length (issued w)); [| discriminate].
    injection H as <-. now destruct r.
Qed.

Lemma journalPrompt_run es : forall w w',
  drawsInRange es ->
  run w es = Some w' ->
  In (journalPrompt (st w)) JOURNAL_PROMPTS ->
  In (journalPrompt (st w')) JOURNAL_PROMPTS.
Proof.
  induction es as [| e es IH]; intros w w' Hes H I; cbn [run] in H.
  - now injection H as <-.
  - inversion Hes as [| ? ? He Hes']; subst.
    destruct (step w e) as [w1 |] eqn:E; [| discriminate].
    apply (IH w1 w' Hes' H). rewrite (step_journalPrompt w e w1 E).
    destruct e; try exact I. now apply nth_In.
Qed.

(** X18. The journal prompt on display is always one of the six fixed
    prompts, hence never empty: it is drawn at mount and at every
    request for a new prompt, and no other event touches it. *)
Theorem journal_prompt_is_from_the_list
    (clientOk : bool) (randomIndex : nat) (es : list Event) (w : Instance) :
  randomIndex < List.length JOURNAL_PROMPTS ->
  drawsInRange es ->
  run (mount clientOk randomIndex) es = Some w ->
  In (journalPrompt (st w)) JOURNAL_PROMPTS /\ journalPrompt (st w) <> [].
Proof.
  intros Hi Hes H.
  assert (I : In (journalPrompt (st w)) JOURNAL_PROMPTS).
  { apply (journalPrompt_run es (mount clientOk randomIndex) w Hes H).
    destruct clientOk;
      change (In (nth randomIndex JOURNAL_PROMPTS []) JOURNAL_PROMPTS);
      now apply nth_In. }
  split; [exact I |].
  intros E. rewrite E in I. vm_compute in I.
  repeat (destruct I as [I | I]; [discriminate |]). exact I.
Qed.

Lemma journal_prompt_is_from_the_list_witness :
  let es := [NewPrompt 5; WriteInJournal; Send; NewPrompt 0; NewChat] in
  exists w,
    3 < List.length JOURNAL_PROMPTS /\ drawsInRange es /\
    run (mount true 3) es = Some w /\
    journalPrompt (st w) =
      JS.lit "What is one thing that brought you a moment of peace today?".
Proof.
  intro es.
  assert (Hi : 3 < List.length JOURNAL_PROMPTS) by (vm_compute; lia).
  assert (Hes : drawsInRange es) by (repeat constructor; vm_compute; lia).
  destruct (run (mount true 3) es) as [w |] eqn:E;
    [| vm_compute in E; discriminate].
  exists w. split; [exact Hi |]. split; [exact Hes |]. split; [reflexivity |].
  destruct (journal_prompt_is_from_the_list true 3 es w Hi Hes E) as [_ Hne].
  vm_compute in E. now injection E as <-.
Defined.

End Ordinary.
